(** * ProxyTool: the structured-reply extractor and the chat orchestrator

  A shallow embedding of [WorkFlow/chain.py], [WorkFlow/ChatModel.py],
  [utils/TranscribeAudio.py], [utils/llm.py], [utils/exceptions.py],
  [Services/ChatService/GetResumeDetails.py] and
  [Services/ChatService/InvokeChatService.py].

  Python [str] is modelled by [string]; one [ascii] stands for one
  character (code points 0..255).  Python exceptions are values of [exn];
  a call that may raise returns [exn + A].  Every call of the database,
  [db.rollback()] included, may fail as the environment decides. *)

From Stdlib Require Import String Ascii List ZArith QArith Lia Bool Arith.
From Stdlib Require Import DecimalString.
From stdpp Require Import base option list gmap strings sorting.

Local Open Scope string_scope.
Local Open Scope list_scope.
Local Open Scope nat_scope.

(** ** Text: the [str] methods and operators the sources use *)

Module Text.

Definition chars (s : string) : list ascii := list_ascii_of_string s.
Definition text (l : list ascii) : string := string_of_list_ascii l.

Definition empty : string := EmptyString.

(** Truthiness of a [str]: [if s:] holds for every non-empty string. *)
Definition truthy (s : string) : bool :=
  match s with EmptyString => false | String _ _ => true end.

Definition len (s : string) : nat := String.length s.

(** [str.isspace] on one character, which is also the class [\s] of [re]
    on [str] patterns. *)
Definition isspace (c : ascii) : bool :=
  let n := nat_of_ascii c in
  ((9 <=? n) && (n <=? 13)) || ((28 <=? n) && (n <=? 32))
  || (n =? 133) || (n =? 160).

(** The class [\w] of [re] on [str] patterns: alphanumeric or underscore. *)
Definition isword (c : ascii) : bool :=
  let n := nat_of_ascii c in
  ((48 <=? n) && (n <=? 57)) || ((65 <=? n) && (n <=? 90))
  || ((97 <=? n) && (n <=? 122)) || (n =? 95)
  || (n =? 170) || (n =? 178) || (n =? 179) || (n =? 181)
  || (n =? 185) || (n =? 186) || ((188 <=? n) && (n <=? 190))
  || ((192 <=? n) && (n <=? 214)) || ((216 <=? n) && (n <=? 246))
  || (248 <=? n).

Definition lower_char (c : ascii) : ascii :=
  let n := nat_of_ascii c in
  if ((65 <=? n) && (n <=? 90))
     || ((192 <=? n) && (n <=? 222) && negb (n =? 215))
  then ascii_of_nat (n + 32) else c.

(** [s.lower()] *)
Definition lower (s : string) : string := text (map lower_char (chars s)).

Fixpoint lstrip_chars (l : list ascii) : list ascii :=
  match l with
  | c :: l' => if isspace c then lstrip_chars l' else l
  | [] => []
  end.

(** [s.strip()] *)
Definition strip (s : string) : string :=
  text (rev (lstrip_chars (rev (lstrip_chars (chars s))))).

Fixpoint prefix_chars (p l : list ascii) : bool :=
  match p, l with
  | [], _ => true
  | a :: p', b :: l' => if Ascii.eqb a b then prefix_chars p' l' else false
  | _ :: _, [] => false
  end.

(** [s.startswith(p)] and [s.endswith(p)] *)
Definition startswith (s p : string) : bool := prefix_chars (chars p) (chars s).
Definition endswith (s p : string) : bool :=
  prefix_chars (rev (chars p)) (rev (chars s)).

Fixpoint contains_chars (p l : list ascii) : bool :=
  prefix_chars p l
  || match l with [] => false | _ :: l' => contains_chars p l' end.

(** [p in s] *)
Definition contains (p s : string) : bool := contains_chars (chars p) (chars s).

(** [sep.join(parts)] *)
Fixpoint join (sep : string) (parts : list string) : string :=
  match parts with
  | [] => empty
  | [p] => p
  | p :: ps => p +:+ sep +:+ join sep ps
  end.

Definition newline : string := String (ascii_of_nat 10) EmptyString.
Definition quote : string := String (ascii_of_nat 34) EmptyString.

End Text.

(** ** JSON: [json.loads] as [WorkFlow/chain.py] calls it *)

Module Json.

Import Text.

#[warnings="-register-all"]
Inductive json : Type :=
| JNull
| JBool (b : bool)
| JNum (literal : string)
| JStr (s : string)
| JArr (items : list json)
| JObj (members : list (string * json)).

(** Lookup in a decoded object.  A Python [dict] keeps the last value of a
    repeated key. *)
Fixpoint get (k : string) (members : list (string * json)) : option json :=
  match members with
  | [] => None
  | (k', v) :: ms =>
      match get k ms with
      | Some v' => Some v'
      | None => if String.eqb k k' then Some v else None
      end
  end.

Definition is_ws (c : ascii) : bool :=
  let n := nat_of_ascii c in (n =? 32) || (n =? 9) || (n =? 10) || (n =? 13).

Definition is_digit (c : ascii) : bool :=
  let n := nat_of_ascii c in (48 <=? n) && (n <=? 57).

Fixpoint skip_ws (l : list ascii) : list ascii :=
  match l with
  | c :: l' => if is_ws c then skip_ws l' else l
  | [] => []
  end.

Fixpoint span (p : ascii -> bool) (l : list ascii) : list ascii * list ascii :=
  match l with
  | c :: l' => if p c then let '(a, b) := span p l' in (c :: a, b) else ([], l)
  | [] => ([], [])
  end.

Definition hex_digit (c : ascii) : option nat :=
  let n := nat_of_ascii c in
  if (48 <=? n) && (n <=? 57) then Some (n - 48)
  else if (65 <=? n) && (n <=? 70) then Some (n - 55)
  else if (97 <=? n) && (n <=? 102) then Some (n - 87)
  else None.

Definition hex4 (a b c d : ascii) : option nat :=
  match hex_digit a, hex_digit b, hex_digit c, hex_digit d with
  | Some x, Some y, Some z, Some w => Some (((x * 16 + y) * 16 + z) * 16 + w)
  | _, _, _, _ => None
  end.

(** The one-letter escapes of a JSON string. *)
Definition escape (c : ascii) : option ascii :=
  let n := nat_of_ascii c in
  if (n =? 34) || (n =? 92) || (n =? 47) then Some c
  else if n =? 98 then Some (ascii_of_nat 8)
  else if n =? 102 then Some (ascii_of_nat 12)
  else if n =? 110 then Some (ascii_of_nat 10)
  else if n =? 114 then Some (ascii_of_nat 13)
  else if n =? 116 then Some (ascii_of_nat 9)
  else None.

(** How a call of [json.loads] ends when it returns no value:
    [json.JSONDecodeError] on a text that is no JSON value; the
    [ValueError] of [int] on an integer of more digits than the interpreter
    converts; [RecursionError] on containers nested deeper than the
    interpreter affords.  [Beyond] is no exception: the text names, by an
    escape, a character above U+00FF, so that what Python decodes lies
    outside the alphabet of [string]. *)
Inductive failure : Type :=
| Malformed
| TooManyDigits (digits : nat)
| TooDeep (container : string)
| Beyond.

(** [sys.get_int_max_str_digits()], at CPython's default. *)
Definition int_max_str_digits : nat := 4300.

(** The body of a string literal, after its opening quote, in strict mode:
    a raw control character ends the parse with an error. *)
Fixpoint scan_string (l acc : list ascii) : failure + (string * list ascii) :=
  match l with
  | [] => inl Malformed
  | c :: l' =>
      let n := nat_of_ascii c in
      if n =? 34 then inr (text (rev acc), l')
      else if n =? 92 then
        match l' with
        | [] => inl Malformed
        | e :: l'' =>
            if nat_of_ascii e =? 117 then
              match l'' with
              | h1 :: h2 :: h3 :: h4 :: l3 =>
                  match hex4 h1 h2 h3 h4 with
                  | Some u =>
                      if u <? 256 then scan_string l3 (ascii_of_nat u :: acc)
                      else inl Beyond
                  | None => inl Malformed
                  end
              | _ => inl Malformed
              end
            else
              match escape e with
              | Some x => scan_string l'' (x :: acc)
              | None => inl Malformed
              end
        end
      else if n <? 32 then inl Malformed
      else scan_string l' (c :: acc)
  end.

(** A number token: an optional minus sign, then a single zero or digits that
    do not start with zero, then an optional fraction and an optional
    exponent.  Its literal is kept as written. *)
Definition scan_int (l : list ascii) : option (list ascii * list ascii) :=
  match l with
  | c :: l' =>
      if nat_of_ascii c =? 48 then Some ([c], l')
      else if is_digit c then let '(ds, r) := span is_digit l' in Some (c :: ds, r)
      else None
  | [] => None
  end.

Definition scan_frac (l : list ascii) : list ascii * list ascii :=
  match l with
  | c :: l' =>
      if nat_of_ascii c =? 46 then
        match span is_digit l' with
        | ([], _) => ([], l)
        | (ds, r) => (c :: ds, r)
        end
      else ([], l)
  | [] => ([], [])
  end.

Definition scan_exp (l : list ascii) : list ascii * list ascii :=
  match l with
  | c :: l' =>
      if (nat_of_ascii c =? 101) || (nat_of_ascii c =? 69) then
        let '(sg, l1) :=
          match l' with
          | s :: l'' =>
              if (nat_of_ascii s =? 43) || (nat_of_ascii s =? 45)
              then ([s], l'') else ([], l')
          | [] => ([], [])
          end in
        match span is_digit l1 with
        | ([], _) => ([], l)
        | (ds, r) => (c :: sg ++ ds, r)
        end
      else ([], l)
  | [] => ([], [])
  end.

(** [None] when no number starts here.  A token without fraction and
    exponent is converted by [int], which refuses more than
    [int_max_str_digits] digits; the other tokens are converted by
    [float], which refuses none. *)
Definition scan_number (l : list ascii) : option (failure + (json * list ascii)) :=
  let '(sg, l0) :=
    match l with
    | c :: l' => if nat_of_ascii c =? 45 then ([c], l') else ([], l)
    | [] => ([], [])
    end in
  match scan_int l0 with
  | Some (ds, l1) =>
      let '(fr, l2) := scan_frac l1 in
      let '(ex, l3) := scan_exp l2 in
      let is_float := negb (length fr + length ex =? 0) in
      if negb is_float && (int_max_str_digits <? length ds)
      then Some (inl (TooManyDigits (length ds)))
      else Some (inr (JNum (text (sg ++ ds ++ fr ++ ex)), l3))
  | None => None
  end.

(** The constants of the grammar and the three that Python adds. *)
Definition keywords : list (string * json) :=
  [ ("null", JNull); ("true", JBool true); ("false", JBool false);
    ("NaN", JNum "NaN"); ("Infinity", JNum "Infinity");
    ("-Infinity", JNum "-Infinity") ].

Fixpoint scan_keyword (kws : list (string * json)) (l : list ascii)
  : option (json * list ascii) :=
  match kws with
  | [] => None
  | (w, v) :: kws' =>
      if prefix_chars (chars w) l then Some (v, drop (len w) l)
      else scan_keyword kws' l
  end.

(** One value at the head of [l].  Every nested value and every further
    member or element costs one unit of [fuel].  The scanner enters a
    recursive call of the interpreter at every object and every array,
    before it looks at what they hold: [depth] is the number of such calls
    that the interpreter still affords. *)
Fixpoint scan_value (fuel depth : nat) (l : list ascii) : failure + (json * list ascii) :=
  match fuel with
  | 0 => inl Malformed
  | S fuel' =>
      match l with
      | [] => inl Malformed
      | c :: l' =>
          let n := nat_of_ascii c in
          if n =? 123 then
            match depth with
            | 0 => inl (TooDeep "object")
            | S depth' =>
                match skip_ws l' with
                | d :: l1 =>
                    if nat_of_ascii d =? 125 then inr (JObj [], l1)
                    else scan_members fuel' depth' (d :: l1) []
                | [] => inl Malformed
                end
            end
          else if n =? 91 then
            match depth with
            | 0 => inl (TooDeep "array")
            | S depth' =>
                match skip_ws l' with
                | d :: l1 =>
                    if nat_of_ascii d =? 93 then inr (JArr [], l1)
                    else scan_elements fuel' depth' (d :: l1) []
                | [] => inl Malformed
                end
            end
          else if n =? 34 then
            match scan_string l' [] with
            | inr (s, r) => inr (JStr s, r)
            | inl f => inl f
            end
          else
            match scan_number l with
            | Some r => r
            | None =>
                match scan_keyword keywords l with
                | Some r => inr r
                | None => inl Malformed
                end
            end
      end
  end
with scan_members (fuel depth : nat) (l : list ascii) (acc : list (string * json))
  : failure + (json * list ascii) :=
  match fuel with
  | 0 => inl Malformed
  | S fuel' =>
      match l with
      | q :: l' =>
          if nat_of_ascii q =? 34 then
            match scan_string l' [] with
            | inr (k, l1) =>
                match skip_ws l1 with
                | colon :: l2 =>
                    if nat_of_ascii colon =? 58 then
                      match scan_value fuel' depth (skip_ws l2) with
                      | inr (v, l3) =>
                          match skip_ws l3 with
                          | d :: l4 =>
                              if nat_of_ascii d =? 125
                              then inr (JObj (rev ((k, v) :: acc)), l4)
                              else if nat_of_ascii d =? 44
                              then scan_members fuel' depth (skip_ws l4) ((k, v) :: acc)
                              else inl Malformed
                          | [] => inl Malformed
                          end
                      | inl f => inl f
                      end
                    else inl Malformed
                | [] => inl Malformed
                end
            | inl f => inl f
            end
          else inl Malformed
      | [] => inl Malformed
      end
  end
with scan_elements (fuel depth : nat) (l : list ascii) (acc : list json)
  : failure + (json * list ascii) :=
  match fuel with
  | 0 => inl Malformed
  | S fuel' =>
      match scan_value fuel' depth l with
      | inr (v, l1) =>
          match skip_ws l1 with
          | d :: l2 =>
              if nat_of_ascii d =? 93 then inr (JArr (rev (v :: acc)), l2)
              else if nat_of_ascii d =? 44
              then scan_elements fuel' depth (skip_ws l2) (v :: acc)
              else inl Malformed
          | [] => inl Malformed
          end
      | inl f => inl f
      end
  end.

(** [json.loads(s)] when the interpreter affords [depth] nested
    containers.  The whole text must be one value between optional white
    space.  Two units of fuel per character are enough: a nested value
    follows an opening bracket or a colon, and a further member or element
    follows a comma. *)
Definition loads (depth : nat) (s : string) : failure + json :=
  let l := skip_ws (chars s) in
  match scan_value (2 * length l + 2) depth l with
  | inr (v, r) => match skip_ws r with [] => inr v | _ :: _ => inl Malformed end
  | inl f => inl f
  end.

End Json.

(** ** Regular expressions: [re.search] and [re.sub] on the patterns of
    [WorkFlow/chain.py] *)

Module Re.

Import Text.

(** Pattern syntax, as far as the five patterns of the extractor need it.
    [Star true] is the greedy [*], [Star false] the lazy one; [Group] is
    the single capture group each pattern has; [Ahead] is a lookahead
    and [End] the anchor at the end of the text, or with [re.MULTILINE]
    of a line. *)
Inductive regex : Type :=
| Eps
| Chr (p : ascii -> bool)
| Seq (r1 r2 : regex)
| Alt (r1 r2 : regex)
| Opt (r : regex)
| Star (greedy : bool) (r : regex)
| Group (r : regex)
| Ahead (r : regex)
| End (multiline : bool).

(** A position of the matcher: the text still ahead and the capture. *)
Record mstate : Type := MState { ahead : list ascii; group1 : option string }.

Definition at_end (multiline : bool) (l : list ascii) : bool :=
  match l with
  | [] => true
  | c :: l' =>
      (nat_of_ascii c =? 10)
      && (multiline || match l' with [] => true | _ :: _ => false end)
  end.

(** Backtracking match of [r] at the head of the text, continued by [k].
    Alternatives are tried in the order of the pattern, a greedy star tries
    one more round before it stops and a lazy one stops before it tries. *)
Fixpoint run (r : regex) (s : mstate) (k : mstate -> option mstate)
  : option mstate :=
  match r with
  | Eps => k s
  | Chr p =>
      match ahead s with
      | c :: l => if p c then k (MState l (group1 s)) else None
      | [] => None
      end
  | Seq r1 r2 => run r1 s (fun s' => run r2 s' k)
  | Alt r1 r2 =>
      match run r1 s k with
      | Some m => Some m
      | None => run r2 s k
      end
  | Opt r1 =>
      match run r1 s k with
      | Some m => Some m
      | None => k s
      end
  | Star greedy r1 =>
      (fix rounds (n : nat) (s : mstate) : option mstate :=
         let again (_ : unit) :=
           match n with
           | 0 => None
           | S n' =>
               run r1 s (fun s' =>
                 if length (ahead s') <? length (ahead s)
                 then rounds n' s' else None)
           end in
         if greedy then
           match again tt with
           | Some m => Some m
           | None => k s
           end
         else
           match k s with
           | Some m => Some m
           | None => again tt
           end) (length (ahead s)) s
  | Group r1 =>
      run r1 s (fun s' =>
        k (MState (ahead s')
             (Some (text (take (length (ahead s) - length (ahead s'))
                            (ahead s))))))
  | Ahead r1 =>
      match run r1 s Some with
      | Some _ => k s
      | None => None
      end
  | End multiline => if at_end multiline (ahead s) then k s else None
  end.

Definition match_at (r : regex) (l : list ascii) : option mstate :=
  run r (MState l None) Some.

Fixpoint search_chars (r : regex) (l : list ascii) : option mstate :=
  match match_at r l with
  | Some m => Some m
  | None =>
      match l with
      | [] => None
      | _ :: l' => search_chars r l'
      end
  end.

(** [re.search(r, s)] followed by [.group(1)]; [None] when nothing
    matches. *)
Definition search_group (r : regex) (s : string) : option string :=
  match search_chars r (chars s) with
  | Some m => Some (default empty (group1 m))
  | None => None
  end.

(** [re.sub(r, [], s)] with the empty replacement, for a pattern that
    matches no empty text: [skip] counts the characters of the current
    match still to be dropped. *)
Fixpoint delete_chars (r : regex) (skip : nat) (l : list ascii) : list ascii :=
  match l with
  | [] => []
  | c :: l' =>
      match skip with
      | S n => delete_chars r n l'
      | 0 =>
          match match_at r l with
          | Some m =>
              match length l - length (ahead m) with
              | 0 => c :: delete_chars r 0 l'
              | S n => delete_chars r n l'
              end
          | None => c :: delete_chars r 0 l'
          end
      end
  end.

Definition delete_all (r : regex) (s : string) : string :=
  text (delete_chars r 0 (chars s)).

(** Pattern builders. *)
Definition any : regex := Chr (fun _ => true).
Definition space : regex := Chr isspace.
Definition word : regex := Chr isword.
Definition chr (c : ascii) : regex := Chr (Ascii.eqb c).
Definition ichr (c : ascii) : regex :=
  Chr (fun d => Ascii.eqb (lower_char c) (lower_char d)).

Fixpoint seq (rs : list regex) : regex :=
  match rs with
  | [] => Eps
  | [r] => r
  | r :: rs' => Seq r (seq rs')
  end.

(** A literal text; with [re.IGNORECASE] its letters match in both
    cases. *)
Definition lit (ignorecase : bool) (s : string) : regex :=
  seq (map (if ignorecase then ichr else chr) (chars s)).

Definition plus (r : regex) : regex := Seq r (Star true r).

End Re.

(** ** Exceptions: [utils/exceptions.py] and the library errors that reach
    the handlers of the sources *)

Inductive exn : Type :=
| JSONDecodeError
| ValidationError (fields : list string)
| OutputParserException
| TypeError
| RecursionError (message : string)
| UnboundLocalError (name : string)
| ValueError (message : string)
| FileNotFoundError (message : string)
| OSError (message : string)
| GroqError (message : string)
| SQLAlchemyError (message : string)
| EmailNotFoundException (email : string)
| DatabaseOperationException (operation : string) (details : string)
| AudioTranscriptionException (message : string) (details : option string)
| LLMException (message : string) (details : option string).

(** [isinstance(e, ValueError)]: pydantic's [ValidationError], the JSON
    decoder's error and langchain's parser error all derive from it. *)
Definition is_ValueError (e : exn) : bool :=
  match e with
  | ValueError _ | ValidationError _ | JSONDecodeError | OutputParserException => true
  | _ => false
  end.

(** [isinstance(e, BaseAppException)] *)
Definition is_BaseAppException (e : exn) : bool :=
  match e with
  | EmailNotFoundException _ | DatabaseOperationException _ _
  | AudioTranscriptionException _ _ | LLMException _ _ => true
  | _ => false
  end.

Definition is_EmailNotFoundException (e : exn) : bool :=
  match e with EmailNotFoundException _ => true | _ => false end.

Definition is_FileNotFoundError (e : exn) : bool :=
  match e with FileNotFoundError _ => true | _ => false end.

Definition is_GroqError (e : exn) : bool :=
  match e with GroqError _ => true | _ => false end.

(** The message that [DatabaseOperationException.__init__] builds. *)
Definition DatabaseOperationException_message (operation details : string) : string :=
  let message := "Database operation '" +:+ operation +:+ "' failed." in
  if Text.truthy details then message +:+ " Details: " +:+ details else message.

(** [str(e)]: an application exception prints its [message], a library
    error the text it carries.  The report that pydantic prints for a
    validation error, and the texts of the decoder's, the parser's and the
    unpacking error, depend on the version of their library and on the
    value at hand: they are abridged here to the kind of the error and the
    fields that failed.  Of these only pydantic's report leaves the
    services, as the message of a reply with status 400. *)
Definition str_exn (e : exn) : string :=
  match e with
  | JSONDecodeError => "JSONDecodeError"
  | ValidationError fields =>
      "validation error for ChatResponseModel: " +:+ Text.join ", " fields
  | OutputParserException => "OutputParserException"
  | TypeError => "TypeError"
  | UnboundLocalError name =>
      "cannot access local variable '" +:+ name +:+ "' where it is not associated with a value"
  | ValueError m | RecursionError m | FileNotFoundError m | OSError m
  | GroqError m | SQLAlchemyError m => m
  | EmailNotFoundException email =>
      "Email address '" +:+ email +:+ "' not found in the database."
  | DatabaseOperationException operation details =>
      DatabaseOperationException_message operation details
  | AudioTranscriptionException m _ | LLMException m _ => m
  end.

(** The outcome of a call that may raise. *)
Definition result (A : Type) : Type := exn + A.
Definition ok {A : Type} (a : A) : result A := inr a.
Definition raise {A : Type} (e : exn) : result A := inl e.

(** ** [WorkFlow/ChatModel.py] *)

Record ChatResponseModel : Type :=
  { explanation : string; code : string }.

(** [Field(..., min_length=10)] of [explanation]. *)
Definition min_length : nat := 10.

(** Validation of the keyword arguments of [ChatResponseModel(...)]:
    [explanation] is required, a [str] of at least [min_length]
    characters; [code] is a [str] and defaults to the empty one; other
    keys are ignored.  The fields that fail are reported together. *)
Definition validate (kwargs : list (string * Json.json)) : result ChatResponseModel :=
  let e := match Json.get "explanation" kwargs with
           | Some (Json.JStr s) => if Text.len s <? min_length then None else Some s
           | _ => None
           end in
  let c := match Json.get "code" kwargs with
           | None => Some Text.empty
           | Some (Json.JStr s) => Some s
           | Some _ => None
           end in
  match e, c with
  | Some e, Some c => ok {| explanation := e; code := c |}
  | None, Some _ => raise (ValidationError ["explanation"])
  | Some _, None => raise (ValidationError ["code"])
  | None, None => raise (ValidationError ["explanation"; "code"])
  end.

(** [ChatResponseModel(explanation=e, code=c)] on two [str] values. *)
Definition ChatResponseModel_init (e c : string) : result ChatResponseModel :=
  validate [("explanation", Json.JStr e); ("code", Json.JStr c)].

(** [ChatResponseModel] applied to an unpacked [parsed_data] (the double
    star call): a value that is no mapping cannot be unpacked. *)
Definition ChatResponseModel_unpack (parsed_data : Json.json) : result ChatResponseModel :=
  match parsed_data with
  | Json.JObj members => validate members
  | _ => raise TypeError
  end.

(** [ChatResponseModel.model_validate(obj)] *)
Definition model_validate (obj : Json.json) : result ChatResponseModel :=
  match obj with
  | Json.JObj members => validate members
  | _ => raise (ValidationError [])
  end.

(** ** [WorkFlow/chain.py]: the parsing of the completion text *)

Module Patterns.

Import Re.

Definition fence : regex := lit false "```".

(** The fenced block of the second strategy, under [re.DOTALL]: a fence, an
    optional [json] tag, white space, the captured braces with the
    shortest text between them, white space and the closing fence. *)
Definition json_block : regex :=
  seq [ fence; Opt (lit false "json"); Star true space;
        Group (seq [lit false "{"; Star false any; lit false "}"]);
        Star true space; fence ].

(** [explanation_pattern], under [re.DOTALL | re.IGNORECASE]. *)
Definition explanation_pattern : regex :=
  seq [ lit true "**explanation:**"; Star true space;
        Group (Star false any);
        Ahead (Alt (lit true "**code:**") (Alt (lit true "**Code:**") (End false))) ].

(** [code_block_pattern], under [re.DOTALL | re.IGNORECASE]. *)
Definition code_block_pattern : regex :=
  seq [ lit true "**code:**"; Star true space; Opt (Star false any);
        fence; Opt (plus word); Star true space;
        Group (Star false any); fence ].

(** [code_text_pattern], under [re.DOTALL | re.IGNORECASE]. *)
Definition code_text_pattern : regex :=
  seq [ lit true "**code:**"; Star true space;
        Group (Star false any);
        Ahead (Alt (lit false (Text.newline +:+ Text.newline))
                 (Alt (lit false (Text.newline +:+ "*")) (End false))) ].

(** The asterisks at the end of a line, under [re.MULTILINE]. *)
Definition trailing_stars : regex := Seq (plus (lit false "*")) (End true).

End Patterns.

(** What a strategy does to the control flow of the [try] block: it
    leaves the function, by [return] or by an exception that its own
    handler does not catch, or it falls through to the next statement. *)
Inductive step (A : Type) : Type :=
| Leave (r : result A)
| Fall.
Arguments Leave {A} r.
Arguments Fall {A}.

(** [str(n)] *)
Definition decimal (n : nat) : string := NilEmpty.string_of_uint (Nat.to_uint n).

(** What a call of [json.loads] that returns no value does inside
    [try: ... except json.JSONDecodeError]: the decoder's own error is
    caught and the next statement follows; the two other errors leave the
    block.  A text that names a character outside the alphabet has no
    reply in this development, and is passed on like a malformed one. *)
Definition decode_failed {A : Type} (f : Json.failure) : step A :=
  match f with
  | Json.Malformed => Fall
  | Json.TooManyDigits digits =>
      Leave (raise (ValueError
        ("Exceeds the limit (" +:+ decimal Json.int_max_str_digits
         +:+ " digits) for integer string conversion: value has "
         +:+ decimal digits
         +:+ " digits; use sys.set_int_max_str_digits() to increase the limit")))
  | Json.TooDeep container =>
      Leave (raise (RecursionError
        ("maximum recursion depth exceeded while decoding a JSON "
         +:+ container +:+ " from a unicode string")))
  | Json.Beyond => Fall
  end.

Section Extractor.

Import Text.

(** langchain's [parse_json_markdown], the reader behind
    [PydanticOutputParser]: the JSON value it finds in a text, if any. *)
Variable parse_json_markdown : string -> option Json.json.

(** The number of nested JSON containers that the interpreter affords
    where [LlmRunnable.invoke] calls [json.loads]. *)
Variable recursion_limit : nat.

(** [self.parser.parse(text)]: the value found is validated against
    [ChatResponseModel]; both failures surface as the parser's own
    exception. *)
Definition parser_parse (t : string) : result ChatResponseModel :=
  match parse_json_markdown t with
  | None => raise OutputParserException
  | Some obj =>
      match model_validate obj with
      | inr parsed => ok parsed
      | inl _ => raise OutputParserException
      end
  end.

(** Lines 122-131: the text looks like a JSON object.  Only the decoder's
    own error is caught here; an error of another kind, and the
    validation error of the model, leave the block. *)
Definition strategy_json (response_clean : string) : step ChatResponseModel :=
  if startswith response_clean "{" && endswith response_clean "}" then
    match Json.loads recursion_limit response_clean with
    | inr parsed_data => Leave (ChatResponseModel_unpack parsed_data)
    | inl f => decode_failed f
    end
  else Fall.

(** Lines 133-144: a JSON object inside a fenced block. *)
Definition strategy_block (response_clean : string) : step ChatResponseModel :=
  if contains "```json" response_clean || contains "```" response_clean then
    match Re.search_group Patterns.json_block response_clean with
    | Some group1 =>
        match Json.loads recursion_limit group1 with
        | inr parsed_data => Leave (ChatResponseModel_unpack parsed_data)
        | inl f => decode_failed f
        end
    | None => Fall
    end
  else Fall.

(** Lines 146-178: the bold markers.  Every exception of this block is
    caught by its own handler. *)
Definition strategy_markdown (response_clean : string) : step ChatResponseModel :=
  if contains "**explanation:" (lower response_clean)
     || contains "**code:" (lower response_clean) then
    let explanation :=
      match Re.search_group Patterns.explanation_pattern response_clean with
      | Some group1 => strip (Re.delete_all Patterns.trailing_stars (strip group1))
      | None => empty
      end in
    let code :=
      match Re.search_group Patterns.code_block_pattern response_clean with
      | Some group1 => strip group1
      | None =>
          match Re.search_group Patterns.code_text_pattern response_clean with
          | Some group1 => strip group1
          | None => empty
          end
      end in
    if truthy explanation then
      match ChatResponseModel_init explanation (if truthy code then code else empty) with
      | inr m => Leave (ok m)
      | inl _ => Fall
      end
    else Fall
  else Fall.

(** Lines 180-186: the schema-guided parser, on the text as received. *)
Definition strategy_parser (response_text : string) : step ChatResponseModel :=
  match parser_parse response_text with
  | inr parsed => Leave (ok parsed)
  | inl _ => Fall
  end.

(** Lines 120-192, the body of the outer [try]. *)
Definition extract_try (response_text : string) : result ChatResponseModel :=
  let response_clean := strip response_text in
  match strategy_json response_clean with
  | Leave r => r
  | Fall =>
      match strategy_block response_clean with
      | Leave r => r
      | Fall =>
          match strategy_markdown response_clean with
          | Leave r => r
          | Fall =>
              match strategy_parser response_text with
              | Leave r => r
              | Fall => ChatResponseModel_init response_text empty
              end
          end
      end
  end.

(** Lines 111-199 of [LlmRunnable.invoke]: from the completion text to the
    structured reply.  The handler of the outer [try] builds the fallback
    reply once more. *)
Definition extract (response_text : string) : result ChatResponseModel :=
  if negb (truthy response_text) then
    ChatResponseModel_init "No response received from the LLM." empty
  else
    match extract_try response_text with
    | inr m => ok m
    | inl _ => ChatResponseModel_init response_text empty
    end.

End Extractor.

(** ** The store, the file system and the collaborators *)

(** [Schema/User.py] *)
Module User.
Record t : Type := { id : string; email : string }.
End User.

(** [Schema/ChatMemory.py]: a chat turn, or a resume record when
    [resume_details] is set.  [created_at] is filled by the server. *)
Module ChatMemory.
Record t : Type :=
  { id : string;
    user_id : string;
    role : string;
    message : string;
    resume_details : option string;
    created_at : Z }.
End ChatMemory.

(** [ChatMemory(user_id=..., message=..., role=...)] as handed to [db.add],
    before the insert gives it an [id] and a [created_at]. *)
Module NewMessage.
Record t : Type := { user_id : string; message : string; role : string }.
End NewMessage.

(** The upload that FastAPI passes as [audio]. *)
Module UploadFile.
Record t : Type := { filename : option string; content : string }.
End UploadFile.

(** The completion that Groq returns to [Llm]: the [content] of each choice,
    and the text that [str] prints for the object. *)
Module Completion.
Record params : Type :=
  { model : string;
    messages : list (string * string);
    temperature : Q;
    top_p : Q;
    stream : bool;
    reasoning_format : option string;
    reasoning_effort : option string }.
Record t : Type := { choices : list (option string); repr : string }.
End Completion.

Inductive node : Type :=
| File (data : string)
| Directory.

(** The calls that leave the process, in the order of the log. *)
Inductive call : Type :=
| QueryUser (email : string)
| QueryResume (user_id : string)
| QueryHistory (user_id : string)
| Commit
| Rollback
| CreateTemp (suffix : string)
| Unlink (path : string)
| Transcription (path : string)
| ChatCompletion (prompt : string).

(** What the environment decides during one request: which calls fail,
    what the providers answer and how deep the interpreter lets the JSON
    decoder nest.  [db_fault] sees the log with the current call at its
    head. *)
Record World : Type :=
  { EmailStr : string -> option string;
    db_fault : list call -> option exn;
    uuid4 : nat -> string;
    now : Z;
    mkstemp : string -> gmap string node -> result string;
    unlink_fault : string -> option exn;
    GROQ_API_KEY : option string;
    transcriptions_create : string -> string -> result (option string);
    completions_create : Completion.params -> result Completion.t;
    parse_json_markdown : string -> option Json.json;
    recursion_limit : nat }.

(** The state a request reads and writes: the two tables, the session's
    pending inserts, the files, and the log of calls (latest first). *)
Record State : Type :=
  { users : list User.t;
    chat_memory : list ChatMemory.t;
    pending : list NewMessage.t;
    files : gmap string node;
    calls : list call }.

Definition set_chat_memory (rows : list ChatMemory.t) (s : State) : State :=
  {| users := users s; chat_memory := rows; pending := pending s;
     files := files s; calls := calls s |}.
Definition set_pending (p : list NewMessage.t) (s : State) : State :=
  {| users := users s; chat_memory := chat_memory s; pending := p;
     files := files s; calls := calls s |}.
Definition set_files (f : gmap string node) (s : State) : State :=
  {| users := users s; chat_memory := chat_memory s; pending := pending s;
     files := f; calls := calls s |}.
Definition set_calls (c : list call) (s : State) : State :=
  {| users := users s; chat_memory := chat_memory s; pending := pending s;
     files := files s; calls := c |}.

(** ** Computations that read and write the state and may raise *)

Definition M (A : Type) : Type := State -> result A * State.

Definition ret {A : Type} (a : A) : M A := fun s => (ok a, s).
Definition throw {A : Type} (e : exn) : M A := fun s => (raise e, s).

Definition bind {A B : Type} (m : M A) (f : A -> M B) : M B :=
  fun s =>
    match m s with
    | (inr a, s') => f a s'
    | (inl e, s') => (inl e, s')
    end.

(** [try: m except Exception as e: h e] *)
Definition catch {A : Type} (m : M A) (h : exn -> M A) : M A :=
  fun s =>
    match m s with
    | (inr a, s') => (inr a, s')
    | (inl e, s') => h e s'
    end.

(** [try: m finally: f], for a clean-up [f] that raises nothing. *)
Definition finally {A : Type} (m : M A) (f : State -> State) : M A :=
  fun s => let '(r, s') := m s in (r, f s').

(** The outcome of [m] as a value: the [try] whose handler needs to know
    how far the block came. *)
Definition attempt {A : Type} (m : M A) : M (result A) :=
  fun s => let '(r, s') := m s in (ok r, s').

Definition get_state : M State := fun s => (ok s, s).
Definition modify (f : State -> State) : M unit := fun s => (ok tt, f s).
Definition log (c : call) : M unit := modify (fun s => set_calls (c :: calls s) s).

Declare Scope M_scope.
Delimit Scope M_scope with M.
Notation "x <- m ;; k" := (bind m (fun x => k))
  (at level 100, m at next level, right associativity) : M_scope.
Notation "m ;;; k" := (bind m (fun _ => k))
  (at level 100, right associativity) : M_scope.
Local Open Scope M_scope.

(** ** [WorkFlow/Prompts/PromptLibrary.py]

    Each template is kept as the texts around its placeholders.  Three
    characters of the persona text lie outside the alphabet of [string]
    (an ellipsis, a dash and an arrow) and are spelled in ASCII. *)

Module PromptLibrary.

(** The persona text before [{ResumeDetails}]. *)
Definition SystemPrompt_head : string :=
  Text.join Text.newline
  [ Text.empty;
    "        ";
    "        You are an AI system acting strictly as a HUMAN JOB CANDIDATE in a live interview.";
    Text.empty;
    "            IMPORTANT ROLE CONSTRAINTS:";
    "            - You are NOT an assistant, coach, or interviewer.";
    "            - You are the candidate whose resume is provided below.";
    ("            - You must answer ALL interview questions in FIRST PERSON (" +:+ Text.quote +:+ "I" +:+ Text.quote +:+ ", " +:+ Text.quote +:+ "my" +:+ Text.quote +:+ ", " +:+ Text.quote +:+ "me" +:+ Text.quote +:+ ").");
    "            - You must ONLY use information from the resume details provided.";
    "            - Do NOT invent skills, experience, companies, or achievements.";
    ("            - If a question asks about something not present in the resume, respond honestly with a reasonable limitation (e.g., " +:+ Text.quote +:+ "I haven't had direct experience with that yet, but..." +:+ Text.quote +:+ ") while staying professional.");
    "            - Keep answers natural, confident, and conversational, as in a real interview.";
    "            - Do NOT mention that you are an AI, LLM, or language model.";
    ("            - Do NOT reference the resume explicitly unless appropriate (e.g., " +:+ Text.quote +:+ "As mentioned in my experience..." +:+ Text.quote +:+ ").");
    Text.empty;
    "            -----------------------------------";
    "            CANDIDATE RESUME DETAILS:";
    "            " ].

(** The persona text after [{ResumeDetails}]. *)
Definition SystemPrompt_tail : string :=
  Text.join Text.newline
  [ Text.empty;
    "            -----------------------------------";
    Text.empty;
    "            INTERVIEW CONTEXT:";
    "            - Job Role: [OPTIONAL - e.g., Backend Developer, Data Analyst]";
    "            - Interview Type: [OPTIONAL - Technical / Behavioral / HR / Mixed]";
    "            - Experience Level: [OPTIONAL - Fresher / Mid-level / Senior]";
    Text.empty;
    "            -----------------------------------";
    "            INTERVIEW BEHAVIOR GUIDELINES:";
    "            - Answer clearly and concisely unless the question requires depth.";
    "            - Use real-world reasoning and examples derived from the resume.";
    "            - Show problem-solving, ownership, and learning mindset.";
    "            - For behavioral questions, structure answers naturally (Situation -> Action -> Result).";
    "            - For technical questions, explain concepts at a level consistent with your experience.";
    "            - When providing answers, structure them with an explanation and code examples if relevant.";
    Text.empty;
    "            -----------------------------------";
    "            START OF INTERVIEW:";
    "            You will now receive interview questions.";
    "            Respond to each question as the candidate.";
    "            Always provide your response in the following structured format:";
    "            - explanation: A clear and detailed explanation of your answer";
    "            - code: Any relevant code snippets or examples (if applicable, otherwise empty string)";
    "        " ].

(** The turn text before [{history}]. *)
Definition InvokePrompt_head : string :=
  Text.join Text.newline
  [ Text.empty;
    "        ";
    "        Use the conversation context and current question to generate the next reply.";
    Text.empty;
    "            CONVERSATION HISTORY:";
    "            " ].

(** The turn text between [{history}] and [{input}]. *)
Definition InvokePrompt_middle : string :=
  Text.join Text.newline
  [ Text.empty;
    Text.empty;
    "            CURRENT QUESTION:";
    "            " ].

(** The turn text after [{input}]. *)
Definition InvokePrompt_tail : string :=
  Text.join Text.newline
  [ Text.empty;
    Text.empty;
    "            RESPONSE RULES:";
    "            - Answer ONLY the current question.";
    "            - Do NOT repeat resume details unless directly required.";
    "            - Do NOT restate or summarize previous answers.";
    "            - Be precise, direct, and relevant to what is being asked.";
    "            - Avoid extra explanations, filler, or assumptions.";
    "            - Maintain continuity with the conversation history.";
    "            - Provide your response in structured format with explanation and code (if applicable).";
    Text.empty;
    "            FINAL ANSWER:";
    "        ";
    "        " ].

(** [SystemPrompt(ResumeDetails).format(ResumeDetails=ResumeDetails)] *)
Definition SystemPrompt_format (ResumeDetails : string) : string :=
  SystemPrompt_head +:+ ResumeDetails +:+ SystemPrompt_tail.

(** [InvokePrompt(input, history).format(input=input, history=history)] *)
Definition InvokePrompt_format (input history : string) : string :=
  InvokePrompt_head +:+ history +:+ InvokePrompt_middle +:+ input
  +:+ InvokePrompt_tail.

End PromptLibrary.

(** ** Database session *)

(** [ORDER BY created_at DESC] *)
Definition newer_first (a b : ChatMemory.t) : Prop :=
  (ChatMemory.created_at b <= ChatMemory.created_at a)%Z.

#[global] Instance newer_first_dec (a b : ChatMemory.t) : Decision (newer_first a b).
Proof. unfold newer_first. apply Z_le_dec. Defined.

Definition is_resume_of (user_id : string) (m : ChatMemory.t) : Prop :=
  ChatMemory.user_id m = user_id /\ ChatMemory.resume_details m <> None.

Definition is_chat_of (user_id : string) (m : ChatMemory.t) : Prop :=
  ChatMemory.user_id m = user_id /\ ChatMemory.resume_details m = None.

#[global] Instance is_resume_of_dec (u : string) (m : ChatMemory.t) : Decision (is_resume_of u m).
Proof. unfold is_resume_of. apply _. Defined.

#[global] Instance is_chat_of_dec (u : string) (m : ChatMemory.t) : Decision (is_chat_of u m).
Proof. unfold is_chat_of. apply _. Defined.

Section Services.

Import Text.

Variable w : World.

(** A call to the database: it is logged, and it raises when the
    environment says so. *)
Definition db_call (c : call) : M unit :=
  log c ;;;
  s <- get_state ;;
  match db_fault w (calls s) with
  | Some e => throw e
  | None => ret tt
  end.

(** The resume records of a user, newest first. *)
Definition resume_records_of (user_id : string) (rows : list ChatMemory.t) : list ChatMemory.t :=
  merge_sort newer_first (filter (is_resume_of user_id) rows).

(** The chat turns of a user, resume records left out, newest first, cut
    at [limit]. *)
Definition chat_messages_of (limit : nat) (user_id : string) (rows : list ChatMemory.t)
  : list ChatMemory.t :=
  take limit (merge_sort newer_first (filter (is_chat_of user_id) rows)).

(** [db.query(User).filter(User.email == email).first()] *)
Definition query_user (email : string) : M (option User.t) :=
  db_call (QueryUser email) ;;;
  s <- get_state ;;
  ret (List.find (fun u => String.eqb (User.email u) email) (users s)).

Definition query_resume (user_id : string) : M (list ChatMemory.t) :=
  db_call (QueryResume user_id) ;;;
  s <- get_state ;;
  ret (resume_records_of user_id (chat_memory s)).

Definition query_history (limit : nat) (user_id : string) : M (list ChatMemory.t) :=
  db_call (QueryHistory user_id) ;;;
  s <- get_state ;;
  ret (chat_messages_of limit user_id (chat_memory s)).

(** [db.add(row)] *)
Definition db_add (row : NewMessage.t) : M unit :=
  modify (fun s => set_pending (pending s ++ [row]) s).

(** The rows that an insert of [news] appends to a table of [n] rows. *)
Fixpoint inserted (n : nat) (news : list NewMessage.t) : list ChatMemory.t :=
  match news with
  | [] => []
  | r :: news' =>
      {| ChatMemory.id := uuid4 w n;
         ChatMemory.user_id := NewMessage.user_id r;
         ChatMemory.role := NewMessage.role r;
         ChatMemory.message := NewMessage.message r;
         ChatMemory.resume_details := None;
         ChatMemory.created_at := now w |} :: inserted (S n) news'
  end.

(** [db.commit()]: all pending rows are inserted, or the call raises and
    none is. *)
Definition db_commit : M unit :=
  db_call Commit ;;;
  modify (fun s =>
    set_pending []
      (set_chat_memory
         (chat_memory s ++ inserted (length (chat_memory s)) (pending s)) s)).

(** [db.rollback()]: the pending rows are dropped, or the call raises and
    the session is left as it was.  The sources call it inside their
    handlers, with no handler of its own around it. *)
Definition db_rollback : M unit :=
  db_call Rollback ;;;
  modify (set_pending []).

(** ** [Services/ChatService/GetResumeDetails.py] *)

(** [UserRequestModel(email=email)]; the result is the validated
    address. *)
Definition UserRequestModel (email : string) : M string :=
  match EmailStr w email with
  | Some validated => ret validated
  | None => throw (ValidationError ["email"])
  end.

(** The records are returned as they are read; the second component is
    [str(db_user.id)]. *)
Definition GetResumeDetails (user_email : string) : M (list ChatMemory.t * string) :=
  catch
    (db_user <- query_user (lower user_email) ;;
     match db_user with
     | None => throw (EmailNotFoundException user_email)
     | Some u =>
         resume_records <- query_resume (User.id u) ;;
         ret (resume_records, User.id u)
     end)
    (fun e =>
       if is_EmailNotFoundException e then throw e
       else throw (DatabaseOperationException "resume_retrieval" (str_exn e))).

(** ** [utils/TranscribeAudio.py] *)

Definition api_key_set : bool :=
  match GROQ_API_KEY w with
  | Some k => truthy k
  | None => false
  end.

Definition TranscribeAudio (audio_path : string) : M string :=
  s <- get_state ;;
  match files s !! audio_path with
  | None => throw (FileNotFoundError ("Audio file not found: " +:+ audio_path))
  | Some Directory => throw (ValueError ("Path is not a file: " +:+ audio_path))
  | Some (File audio_data) =>
      let file_size := len audio_data in
      if file_size =? 0 then
        throw (AudioTranscriptionException "Audio file is empty" None)
      else
        catch
          (if negb api_key_set then
             throw (AudioTranscriptionException
                      ("GROQ_API_KEY environment variable is not set. "
                       +:+ "Please set it in your .env file or environment variables.")
                      None)
           else
             log (Transcription audio_path) ;;;
             match transcriptions_create w audio_path audio_data with
             | inl e => throw e
             | inr transcription_text =>
                 match transcription_text with
                 | Some t =>
                     if truthy t then ret (strip t)
                     else throw (AudioTranscriptionException
                                   "Transcription returned empty result" None)
                 | None =>
                     throw (AudioTranscriptionException
                              "Transcription returned empty result" None)
                 end
             end)
          (fun e =>
             if is_FileNotFoundError e then throw e
             else if is_GroqError e then
               throw (AudioTranscriptionException
                        "Failed to transcribe audio using Groq API"
                        (Some (str_exn e)))
             else
               throw (AudioTranscriptionException
                        "An unexpected error occurred during audio transcription"
                        (Some (str_exn e))))
  end.

(** ** [utils/llm.py] *)

Definition Llm (system_prompt model : string) (temperature top_p : Q) (stream : bool)
  : M Completion.t :=
  catch
    (let prompt_text := system_prompt in
     if negb api_key_set then
       throw (LLMException
                ("GROQ_API_KEY environment variable is not set. "
                 +:+ "Please set it in your .env file or environment variables.")
                None)
     else
       let messages := [("system", prompt_text)] in
       let reasoning :=
         contains "gpt-oss" (lower model) || contains "deepseek" (lower model) in
       let completion_params :=
         {| Completion.model := model;
            Completion.messages := messages;
            Completion.temperature := temperature;
            Completion.top_p := top_p;
            Completion.stream := stream;
            Completion.reasoning_format := if reasoning then Some "hidden" else None;
            Completion.reasoning_effort := if reasoning then Some "high" else None |} in
       log (ChatCompletion prompt_text) ;;;
       match completions_create w completion_params with
       | inl e => throw e
       | inr completion => ret completion
       end)
    (fun e =>
       if is_GroqError e then
         throw (LLMException "Failed to invoke LLM using Groq API" (Some (str_exn e)))
       else
         throw (LLMException "An unexpected error occurred during LLM invocation"
                  (Some (str_exn e)))).

End Services.

(** ** [WorkFlow/chain.py]: the chain *)

Module LlmRunnable.
Record t : Type :=
  { system_prompt_text : string;
    user_prompt_text : string;
    model : string;
    temperature : Q;
    top_p : Q }.
End LlmRunnable.

(** [GetChain]: both prompts are rendered here; the prompt template in
    front of the runnable passes its input through. *)
Definition GetChain (ResumeDetails input : string) (history : list string)
  (model : string) (temperature top_p : Q) : LlmRunnable.t :=
  let history_list := history in
  let history_str :=
    match history_list with
    | [] => "No previous conversation."
    | _ :: _ => Text.join Text.newline history_list
    end in
  {| LlmRunnable.system_prompt_text := PromptLibrary.SystemPrompt_format ResumeDetails;
     LlmRunnable.user_prompt_text := PromptLibrary.InvokePrompt_format input history_str;
     LlmRunnable.model := model;
     LlmRunnable.temperature := temperature;
     LlmRunnable.top_p := top_p |}.

(** Lines 103-109: the text of a completion.  A chat completion has no
    attribute [text], so without choices its printed form is taken. *)
Definition response_text_of (completion : Completion.t) : string :=
  match Completion.choices completion with
  | content :: _ => default Text.empty content
  | [] => Completion.repr completion
  end.

(** [LlmRunnable.invoke] *)
Definition invoke (w : World) (self : LlmRunnable.t) : M ChatResponseModel :=
  let combined_prompt :=
    LlmRunnable.system_prompt_text self +:+ Text.newline +:+ Text.newline
    +:+ LlmRunnable.user_prompt_text self in
  completion <- Llm w combined_prompt (LlmRunnable.model self)
                  (LlmRunnable.temperature self) (LlmRunnable.top_p self) false ;;
  let response_text := response_text_of completion in
  fun s => (extract (parse_json_markdown w) (recursion_limit w) response_text, s).

(** ** [Services/ChatService/InvokeChatService.py] *)

Module Response.
Record t : Type := { explanation : string; code : string; user_id : string }.
End Response.

(** A local name that an exception may leave without a value. *)
Inductive binding (A : Type) : Type :=
| Unbound
| Bound (a : A).
Arguments Unbound {A}.
Arguments Bound {A} a.

(** [pathlib]: the suffix of the last component of a path, which is the
    text from the last dot on when that dot is neither the first nor the
    last character of the name. *)
Module Path.

Fixpoint split (l cur : list ascii) : list (list ascii) :=
  match l with
  | [] => [rev cur]
  | c :: l' =>
      if nat_of_ascii c =? 47 then rev cur :: split l' []
      else split l' (c :: cur)
  end.

Definition is_part (p : list ascii) : bool :=
  match p with
  | [] => false
  | [c] => negb (nat_of_ascii c =? 46)
  | _ => true
  end.

Definition name (p : string) : list ascii :=
  List.last (List.filter is_part (split (Text.chars p) [])) [].

(** The index of the last dot, counted from the end of the name. *)
Fixpoint dot_from_end (rev_name : list ascii) : option nat :=
  match rev_name with
  | [] => None
  | c :: l =>
      if nat_of_ascii c =? 46 then Some 0
      else match dot_from_end l with Some i => Some (S i) | None => None end
  end.

Definition suffix (p : string) : string :=
  let nm := name p in
  match dot_from_end (rev nm) with
  | Some k =>
      let i := length nm - 1 - k in
      if (0 <? i) && (i <? length nm - 1) then Text.text (drop i nm)
      else Text.empty
  | None => Text.empty
  end.

End Path.

(** The local variables that the function holds when the chain has
    answered. *)
Module Locals.
Record t : Type :=
  { user_id : string;
    db_user : binding (option User.t);
    input_text : string;
    result : ChatResponseModel }.
End Locals.

Section InvokeChat.

Import Text.

Variable w : World.

Definition text_present (text : option string) : bool :=
  match text with
  | Some t => truthy t
  | None => false
  end.

(** Truth of [audio]: an upload object is true, [None] is not. *)
Definition upload_present (audio : option UploadFile.t) : bool :=
  match audio with
  | Some _ => true
  | None => false
  end.

(** [tempfile.NamedTemporaryFile(delete=False, suffix=suffix)] and the
    write of the upload into it. *)
Definition save_upload (suffix content : string) : M string :=
  log (CreateTemp suffix) ;;;
  s <- get_state ;;
  match mkstemp w suffix (files s) with
  | inl e => throw e
  | inr temp_audio_path =>
      modify (fun s => set_files (<[temp_audio_path := File content]> (files s)) s) ;;;
      ret temp_audio_path
  end.

(** Lines 141-150, the [finally] block: the file is unlinked if it is
    there; a failing unlink is logged and nothing else. *)
Definition clean_up (temp_audio_path : string) (s : State) : State :=
  if truthy temp_audio_path then
    match files s !! temp_audio_path with
    | Some _ =>
        let s' := set_calls (Unlink temp_audio_path :: calls s) s in
        match unlink_fault w temp_audio_path with
        | Some _ => s'
        | None => set_files (delete temp_audio_path (files s')) s'
        end
    | None => s
    end
  else s.

(** Line 122: the suffix of the temporary file. *)
Definition upload_suffix (audio : UploadFile.t) : string :=
  match UploadFile.filename audio with
  | Some filename => if truthy filename then Path.suffix filename else ".wav"
  | None => ".wav"
  end.

Definition audio_error (e : exn) : exn :=
  DatabaseOperationException "audio_processing" (str_exn e).

(** Lines 116-150.  When the temporary file cannot be created,
    [temp_audio_path] is still [None] in the [finally] block and nothing
    is cleaned up; otherwise the block runs after the transcription or
    after the handler that wraps its exception. *)
Definition process_audio (audio : UploadFile.t) : M string :=
  let suffix := upload_suffix audio in
  created <- attempt (save_upload suffix (UploadFile.content audio)) ;;
  match created with
  | inl e => throw (audio_error e)
  | inr temp_audio_path =>
      finally
        (catch (TranscribeAudio w temp_audio_path) (fun e => throw (audio_error e)))
        (clean_up temp_audio_path)
  end.

(** Lines 152-164: the text and the transcript are merged. *)
Definition combine_inputs (text : option string) (transcribed_text : string) : M string :=
  let input_text :=
    match text with
    | Some t => if truthy t then strip t else empty
    | None => empty
    end in
  let input_text :=
    if truthy transcribed_text then
      if truthy input_text
      then input_text +:+ newline +:+ newline +:+ strip transcribed_text
      else strip transcribed_text
    else input_text in
  if negb (truthy input_text)
  then throw (ValueError "No text input available after processing audio")
  else ret input_text.

(** Lines 187-189: the messages oldest first, empty ones left out. *)
Definition history_of (chat_messages : list ChatMemory.t) : list string :=
  List.filter truthy (map ChatMemory.message (reverse chat_messages)).

(** Lines 170-195.  An exception of either query is logged and the history
    gathered so far, which is empty, is kept; [db_user] has no value when
    the first query raised. *)
Definition fetch_history (email : string)
  : M (binding (option User.t) * list string) :=
  found <- attempt (query_user w (lower email)) ;;
  match found with
  | inl _ => ret (Unbound, [])
  | inr None => ret (Bound None, [])
  | inr (Some u) =>
      fetched <- attempt (query_history w 10 (User.id u)) ;;
      match fetched with
      | inl _ => ret (Bound (Some u), [])
      | inr chat_messages => ret (Bound (Some u), history_of chat_messages)
      end
  end.

(** The text stored for the assistant's turn. *)
Definition assistant_text (result : ChatResponseModel) : string :=
  if truthy (code result)
  then "Explanation: " +:+ explanation result +:+ newline +:+ newline
       +:+ "Code: " +:+ code result
  else explanation result.

(** Lines 212-242: both turns are added and committed; every exception of
    the block, the unbound [db_user] included, ends in a rollback, and an
    exception of the rollback leaves the handler. *)
Definition save_conversation (db_user : binding (option User.t))
  (input_text : string) (result : ChatResponseModel) : M unit :=
  catch
    (match db_user with
     | Unbound => throw (UnboundLocalError "db_user")
     | Bound None => ret tt
     | Bound (Some u) =>
         let user_message :=
           {| NewMessage.user_id := User.id u;
              NewMessage.message := input_text;
              NewMessage.role := "user" |} in
         db_add user_message ;;;
         let assistant_message :=
           {| NewMessage.user_id := User.id u;
              NewMessage.message := assistant_text result;
              NewMessage.role := "assistant" |} in
         db_add assistant_message ;;;
         db_commit w
     end)
    (fun _ => db_rollback w).

(** Lines 96-210: from the request to the reply of the chain. *)
Definition answer (text : option string) (audio : option UploadFile.t)
  (email model : string) (temperature top_p : Q) : M Locals.t :=
  user_request <- UserRequestModel w email ;;
  found <- GetResumeDetails w user_request ;;
  let '(resume_details_list, user_id) := found in
  let resume_details_text :=
    match resume_details_list with
    | latest_resume :: _ => default empty (ChatMemory.resume_details latest_resume)
    | [] => "No resume details available."
    end in
  transcribed_text <-
    match audio with
    | Some a => process_audio a
    | None => ret empty
    end ;;
  input_text <- combine_inputs text transcribed_text ;;
  fetched <- fetch_history email ;;
  let '(db_user, history_messages) := fetched in
  let chain :=
    GetChain resume_details_text input_text history_messages model temperature top_p in
  result <- invoke w chain ;;
  ret {| Locals.user_id := user_id; Locals.db_user := db_user;
         Locals.input_text := input_text; Locals.result := result |}.

(** Lines 95-253, the body of the [try]. *)
Definition InvokeChat_try (text : option string) (audio : option UploadFile.t)
  (email model : string) (temperature top_p : Q) : M Response.t :=
  a <- answer text audio email model temperature top_p ;;
  save_conversation (Locals.db_user a) (Locals.input_text a) (Locals.result a) ;;;
  ret {| Response.explanation := explanation (Locals.result a);
         Response.code := code (Locals.result a);
         Response.user_id := Locals.user_id a |}.

Definition InvokeChat (text : option string) (audio : option UploadFile.t)
  (email model : string) (temperature top_p : Q) : M Response.t :=
  if negb (text_present text) && negb (upload_present audio) then
    throw (ValueError "Either text or audio input must be provided")
  else
    catch (InvokeChat_try text audio email model temperature top_p)
      (fun e =>
         if is_EmailNotFoundException e || is_ValueError e then throw e
         else if is_BaseAppException e then throw e
         else throw (DatabaseOperationException "chat_invocation" (str_exn e))).

End InvokeChat.

(** ** [utils/EmailExists.py], [Services/AuthUserService/GetUser.py] and
    [Services/AuthUserService/DeleteUser.py] *)

Definition set_users (us : list User.t) (s : State) : State :=
  {| users := us; chat_memory := chat_memory s; pending := pending s;
     files := files s; calls := calls s |}.

Module Deleted.
Record t : Type :=
  { message : string; deleted_email : string; deleted_user_id : string }.
End Deleted.

Section AuthUserService.

Import Text.

Variable w : World.

(** [check_email_exists]: its handler logs the exception and raises it
    again. *)
Definition check_email_exists (email : string) : M bool :=
  catch
    (existing_user <- query_user w (lower email) ;;
     ret (match existing_user with Some _ => true | None => false end))
    (fun e => throw e).

(** [GetUser] *)
Definition GetUser (user_email : string) : M User.t :=
  catch
    (db_user <- query_user w (lower user_email) ;;
     match db_user with
     | None => throw (EmailNotFoundException user_email)
     | Some u => ret u
     end)
    (fun e =>
       if is_EmailNotFoundException e then throw e
       else throw (DatabaseOperationException "user_retrieval" (str_exn e))).

(** [db.delete(user)] followed by [db.commit()]: when the commit goes
    through, the user's row is gone and, by the cascade of the relationship,
    so are the rows of [chat_memory] that belong to the user; pending rows
    are inserted as by every commit.  When it raises, nothing is changed. *)
Definition db_delete_commit (u : User.t) : M unit :=
  db_call w Commit ;;;
  modify (fun s =>
    let rows := chat_memory s ++ inserted w (length (chat_memory s)) (pending s) in
    set_pending []
      (set_chat_memory
         (List.filter (fun m => negb (String.eqb (ChatMemory.user_id m) (User.id u))) rows)
         (set_users
            (List.filter (fun u' => negb (String.eqb (User.id u') (User.id u))) (users s))
            s))).

(** [Delete] *)
Definition Delete (user_email : string) : M Deleted.t :=
  catch
    (found <- check_email_exists user_email ;;
     if negb found then throw (EmailNotFoundException user_email)
     else
       user_to_delete <- query_user w (lower user_email) ;;
       match user_to_delete with
       | None => throw (EmailNotFoundException user_email)
       | Some u =>
           let user_id := User.id u in
           db_delete_commit u ;;;
           ret {| Deleted.message := "User successfully deleted";
                  Deleted.deleted_email := user_email;
                  Deleted.deleted_user_id := user_id |}
       end)
    (fun e =>
       if is_EmailNotFoundException e then throw e
       else
         db_rollback w ;;;
         throw (DatabaseOperationException "user_deletion" (str_exn e))).

End AuthUserService.

(** ** [utils/exceptions.py] and
    [Controller/ChatControllers/InvokeChatController.py] *)

Module HTTP.

(** [HTTPException(status_code, detail={"error": ..., "message": ...})] *)
Record HTTPException : Type :=
  { status_code : nat; error : string; message : string }.

(** The body of the reply of the chat endpoint, sent with status 200. *)
Record JSONResponse : Type :=
  { response_message : string;
    explanation : string;
    code : string;
    user_id : string }.

End HTTP.

(** The [status_code] that the constructor of an application exception
    passes to [BaseAppException]. *)
Definition status_code_of (e : exn) : nat :=
  match e with
  | EmailNotFoundException _ => 404
  | AudioTranscriptionException _ _ | LLMException _ _ => 422
  | _ => 500
  end.

(** [exception.__class__.__name__] *)
Definition class_name (e : exn) : string :=
  match e with
  | JSONDecodeError => "JSONDecodeError"
  | ValidationError _ => "ValidationError"
  | OutputParserException => "OutputParserException"
  | TypeError => "TypeError"
  | RecursionError _ => "RecursionError"
  | UnboundLocalError _ => "UnboundLocalError"
  | ValueError _ => "ValueError"
  | FileNotFoundError _ => "FileNotFoundError"
  | OSError _ => "OSError"
  | GroqError _ => "GroqError"
  | SQLAlchemyError _ => "SQLAlchemyError"
  | EmailNotFoundException _ => "EmailNotFoundException"
  | DatabaseOperationException _ _ => "DatabaseOperationException"
  | AudioTranscriptionException _ _ => "AudioTranscriptionException"
  | LLMException _ _ => "LLMException"
  end.

(** [handle_app_exception] *)
Definition handle_app_exception (exception : exn) : HTTP.HTTPException :=
  {| HTTP.status_code := status_code_of exception;
     HTTP.error := class_name exception;
     HTTP.message := str_exn exception |}.

Section InvokeChatController.

Import Text.

Variable w : World.

Definition validation_error (message : string) : HTTP.HTTPException :=
  {| HTTP.status_code := 400; HTTP.error := "ValidationError";
     HTTP.message := message |}.

Definition internal_server_error : HTTP.HTTPException :=
  {| HTTP.status_code := 500; HTTP.error := "InternalServerError";
     HTTP.message :=
       "An unexpected error occurred while processing the chat request." |}.

(** [invoke_chat]: the endpoint either answers with status 200 or raises
    an [HTTPException]. *)
Definition invoke_chat (email : string) (text : option string)
  (audio : option UploadFile.t) (model : string) (temperature top_p : Q)
  (s : State) : (HTTP.HTTPException + HTTP.JSONResponse) * State :=
  if negb (text_present text) && negb (upload_present audio) then
    (inl (validation_error "Either text or audio input must be provided"), s)
  else
    let text_input :=
      match text with
      | Some t => if truthy t then Some (strip t) else None
      | None => None
      end in
    match InvokeChat w text_input audio email model temperature top_p s with
    | (inr result, s') =>
        (inr {| HTTP.response_message := "Chat invocation completed successfully";
                HTTP.explanation := Response.explanation result;
                HTTP.code := Response.code result;
                HTTP.user_id := Response.user_id result |}, s')
    | (inl e, s') =>
        if is_BaseAppException e then (inl (handle_app_exception e), s')
        else if is_ValueError e then (inl (validation_error (str_exn e)), s')
        else (inl internal_server_error, s')
    end.

End InvokeChatController.

(** ** A concrete request, for the examples below *)

Module Scenario.

(** A reader that finds a JSON value only when the whole text, white space
    aside, is one. *)
Definition reader (t : string) : option Json.json :=
  match Json.loads 900 (Text.strip t) with
  | inr v => Some v
  | inl _ => None
  end.

Definition alice : User.t :=
  {| User.id := "7d3c"; User.email := "alice@example.com" |}.

Definition turn (id role message : string) (resume_details : option string)
  (created_at : Z) : ChatMemory.t :=
  {| ChatMemory.id := id;
     ChatMemory.user_id := User.id alice;
     ChatMemory.role := role;
     ChatMemory.message := message;
     ChatMemory.resume_details := resume_details;
     ChatMemory.created_at := created_at |}.

Definition rows : list ChatMemory.t :=
  [ turn "r1" "user" "Resume uploaded" (Some "Python developer, five years") 1;
    turn "m1" "user" "Tell me about yourself" None 2;
    turn "m2" "assistant" "I build web services in Python." None 3 ].

Definition store : State :=
  {| users := [alice]; chat_memory := rows; pending := [];
     files := ∅; calls := [] |}.

Definition answer_text : string := "I have built several REST services.".

(** A world in which every collaborator answers. *)
Definition calm : World :=
  {| EmailStr := fun e => if Text.contains "@" e then Some e else None;
     db_fault := fun _ => None;
     uuid4 := fun n => "row" +:+ Text.text (repeat "i"%char n);
     now := 10;
     mkstemp := fun suffix _ => inr ("/tmp/tmpq3x" +:+ suffix);
     unlink_fault := fun _ => None;
     GROQ_API_KEY := Some "gsk";
     transcriptions_create := fun _ _ => inr (Some "What did you build?");
     completions_create := fun _ =>
       inr {| Completion.choices := [Some answer_text];
              Completion.repr := "ChatCompletion" |};
     parse_json_markdown := reader;
     recursion_limit := 900 |}.

(** The same world with a transcription provider that fails. *)
Definition deaf : World :=
  {| EmailStr := EmailStr calm; db_fault := db_fault calm;
     uuid4 := uuid4 calm; now := now calm; mkstemp := mkstemp calm;
     unlink_fault := unlink_fault calm; GROQ_API_KEY := GROQ_API_KEY calm;
     transcriptions_create := fun _ _ => inl (GroqError "503 Service Unavailable");
     completions_create := completions_create calm;
     parse_json_markdown := parse_json_markdown calm;
     recursion_limit := recursion_limit calm |}.

(** The same world with a temporary file that cannot be unlinked. *)
Definition sticky : World :=
  {| EmailStr := EmailStr calm; db_fault := db_fault calm;
     uuid4 := uuid4 calm; now := now calm; mkstemp := mkstemp calm;
     unlink_fault := fun _ => Some (OSError "Permission denied");
     GROQ_API_KEY := GROQ_API_KEY calm;
     transcriptions_create := transcriptions_create calm;
     completions_create := completions_create calm;
     parse_json_markdown := parse_json_markdown calm;
     recursion_limit := recursion_limit calm |}.

(** The same world with a commit that fails. *)
Definition readonly : World :=
  {| EmailStr := EmailStr calm;
     db_fault := fun log =>
       match log with
       | Commit :: _ => Some (SQLAlchemyError "connection lost")
       | _ => None
       end;
     uuid4 := uuid4 calm; now := now calm; mkstemp := mkstemp calm;
     unlink_fault := unlink_fault calm; GROQ_API_KEY := GROQ_API_KEY calm;
     transcriptions_create := transcriptions_create calm;
     completions_create := completions_create calm;
     parse_json_markdown := parse_json_markdown calm;
     recursion_limit := recursion_limit calm |}.

(** The same world with a model that answers in two letters. *)
Definition terse : World :=
  {| EmailStr := EmailStr calm; db_fault := db_fault calm;
     uuid4 := uuid4 calm; now := now calm; mkstemp := mkstemp calm;
     unlink_fault := unlink_fault calm; GROQ_API_KEY := GROQ_API_KEY calm;
     transcriptions_create := transcriptions_create calm;
     completions_create := fun _ =>
       inr {| Completion.choices := [Some "hi"];
              Completion.repr := "ChatCompletion" |};
     parse_json_markdown := parse_json_markdown calm;
     recursion_limit := recursion_limit calm |}.

Definition recording : UploadFile.t :=
  {| UploadFile.filename := Some "question.wav"; UploadFile.content := "RIFF" |}.

Definition temp_path : string := "/tmp/tmpq3x.wav".

(** The store once the upload has been saved as [data]. *)
Definition saved (data : string) : State :=
  set_files (<[temp_path := File data]> (files store)) store.

Definition model_name : string := "openai/gpt-oss-120b".
Definition temperature : Q := 6 # 10.
Definition top_p : Q := 95 # 100.

(** The text of the second example of the specification: an object
    with the explanation [x] and the code [y]. *)
Definition quoted (s : string) : string := Text.quote +:+ s +:+ Text.quote.
Definition json_xy : string :=
  "{" +:+ quoted "explanation" +:+ ":" +:+ quoted "x" +:+ ","
  +:+ quoted "code" +:+ ":" +:+ quoted "y" +:+ "}".
(** The fourth and the fifth example of the specification. *)
Definition bold_markers : string :=
  "**Explanation:** I built APIs." +:+ Text.newline +:+ Text.newline
  +:+ "**Code:**" +:+ Text.newline +:+ "```" +:+ Text.newline
  +:+ "print(1)" +:+ Text.newline +:+ "```".
Definition plain_prose : string := "just some plain prose with no markers".

Definition json_long : string :=
  "{" +:+ quoted "explanation" +:+ ":" +:+ quoted "I built APIs." +:+ ","
  +:+ quoted "code" +:+ ":" +:+ quoted "y" +:+ "}".

End Scenario.

(** ** Further requests *)

Module Cases.

(** The world of [Scenario.calm] without an API key. *)
Definition keyless : World :=
  {| EmailStr := EmailStr Scenario.calm; db_fault := db_fault Scenario.calm;
     uuid4 := uuid4 Scenario.calm; now := now Scenario.calm;
     mkstemp := mkstemp Scenario.calm;
     unlink_fault := unlink_fault Scenario.calm; GROQ_API_KEY := None;
     transcriptions_create := transcriptions_create Scenario.calm;
     completions_create := completions_create Scenario.calm;
     parse_json_markdown := parse_json_markdown Scenario.calm;
     recursion_limit := recursion_limit Scenario.calm |}.

(** The world of [Scenario.calm] with a provider that hears nothing but
    white space. *)
Definition mumbling : World :=
  {| EmailStr := EmailStr Scenario.calm; db_fault := db_fault Scenario.calm;
     uuid4 := uuid4 Scenario.calm; now := now Scenario.calm;
     mkstemp := mkstemp Scenario.calm;
     unlink_fault := unlink_fault Scenario.calm;
     GROQ_API_KEY := GROQ_API_KEY Scenario.calm;
     transcriptions_create := fun _ _ => inr (Some "   ");
     completions_create := completions_create Scenario.calm;
     parse_json_markdown := parse_json_markdown Scenario.calm;
     recursion_limit := recursion_limit Scenario.calm |}.

(** The world of [Scenario.calm] with a model that answers without
    content. *)
Definition silent : World :=
  {| EmailStr := EmailStr Scenario.calm; db_fault := db_fault Scenario.calm;
     uuid4 := uuid4 Scenario.calm; now := now Scenario.calm;
     mkstemp := mkstemp Scenario.calm;
     unlink_fault := unlink_fault Scenario.calm;
     GROQ_API_KEY := GROQ_API_KEY Scenario.calm;
     transcriptions_create := transcriptions_create Scenario.calm;
     completions_create := fun _ =>
       inr {| Completion.choices := [None]; Completion.repr := "ChatCompletion" |};
     parse_json_markdown := parse_json_markdown Scenario.calm;
     recursion_limit := recursion_limit Scenario.calm |}.


(** A reply in JSON with a valid explanation and, beside it, an integer of
    4301 digits. *)
Definition json_big : string :=
  "{" +:+ Scenario.quoted "explanation" +:+ ":" +:+ Scenario.quoted "I built APIs."
  +:+ "," +:+ Scenario.quoted "visits" +:+ ":"
  +:+ Text.text (repeat "7"%char 4301) +:+ "}".

Definition bob : User.t :=
  {| User.id := "91fe"; User.email := "bob@example.com" |}.

Definition bobs_turn : ChatMemory.t :=
  {| ChatMemory.id := "b1";
     ChatMemory.user_id := User.id bob;
     ChatMemory.role := "user";
     ChatMemory.message := "Which databases have you used?";
     ChatMemory.resume_details := None;
     ChatMemory.created_at := 4 |}.

(** A store with two users, the turns of the one between those of the
    other. *)
Definition shared : State :=
  {| users := [Scenario.alice; bob];
     chat_memory := Scenario.rows ++ [bobs_turn];
     pending := [];
     files := ∅;
     calls := [] |}.

End Cases.

(** ** Predicates of the properties below *)

(** The invariant of a reply. *)
Definition long_enough (m : ChatResponseModel) : Prop :=
  min_length <= Text.len (explanation m).

(** [m] leaves the files as they are, when they are [F] before it. *)
Definition at_files {A : Type} (F : gmap string node) (m : M A) : Prop :=
  forall s, files s = F -> files (m s).2 = F.

(** [ORDER BY created_at ASC], the order of the history. *)
Definition older_first (a b : ChatMemory.t) : Prop :=
  (ChatMemory.created_at a <= ChatMemory.created_at b)%Z.

(** The reply that [InvokeChat] formats from its local variables. *)
Definition response_of (a : Locals.t) : Response.t :=
  {| Response.explanation := explanation (Locals.result a);
     Response.code := code (Locals.result a);
     Response.user_id := Locals.user_id a |}.

Definition is_AudioTranscriptionException (e : exn) : bool :=
  match e with AudioTranscriptionException _ _ => true | _ => false end.

(** [m] leaves the part [proj] of the state as it is. *)
Definition preserves {A B : Type} (proj : State -> B) (m : M A) : Prop :=
  forall s, proj (m s).2 = proj s.

(** The message of both providers about the missing key. *)
Definition key_message : string :=
  "GROQ_API_KEY environment variable is not set. "
  +:+ "Please set it in your .env file or environment variables.".

(** The tables and the session, without the files and the log. *)
Definition store_of (s : State) : list User.t * list ChatMemory.t * list NewMessage.t :=
  (users s, chat_memory s, pending s).

(** The two rows that a request of user [u] hands to the session. *)
Definition new_turns (u : User.t) (input : string) (result : ChatResponseModel)
  : list NewMessage.t :=
  [ {| NewMessage.user_id := User.id u; NewMessage.message := input;
       NewMessage.role := "user" |};
    {| NewMessage.user_id := User.id u; NewMessage.message := assistant_text result;
       NewMessage.role := "assistant" |} ].

(** The exception with which [InvokeChat] ends when the body of its [try]
    has raised [e]: lines 255-266. *)
Definition chat_invocation_error (e : exn) : exn :=
  if is_EmailNotFoundException e || is_ValueError e then e
  else if is_BaseAppException e then e
  else DatabaseOperationException "chat_invocation" (str_exn e).

(** [m] was inserted now, or later. *)
Definition fresh (w : World) (m : ChatMemory.t) : Prop :=
  (now w <= ChatMemory.created_at m)%Z.

#[global] Instance fresh_dec (w : World) (m : ChatMemory.t) : Decision (fresh w m).
Proof. unfold fresh. apply Z_le_dec. Defined.

(** The database raises errors of its own, none of the application's
    exceptions. *)
Definition db_raises_library_errors (w : World) : Prop :=
  forall log e, db_fault w log = Some e -> is_BaseAppException e = false.

Definition is_ChatCompletion (c : call) : bool :=
  match c with ChatCompletion _ => true | _ => false end.

(** The calls of the model in the log, latest first. *)
Definition model_calls (s : State) : list call :=
  List.filter is_ChatCompletion (calls s).

(** The reply for a completion without text. *)
Definition no_response : ChatResponseModel :=
  {| explanation := "No response received from the LLM."; code := Text.empty |}.

(** * Properties *)

(** ** The model and the extractor *)

Section ExtractorFacts.

Import Text.

Lemma validate_long_enough kwargs m :
  validate kwargs = ok m -> long_enough m.
Proof.
  unfold validate, long_enough.
  destruct (Json.get "explanation" kwargs) as [[ | | | e | | ] | ];
    destruct (Json.get "code" kwargs) as [[ | | | c | | ] | ];
    try discriminate;
    destruct (len e <? min_length) eqn:Hlen; try discriminate;
    intros [= <-]; simpl; apply Nat.ltb_ge in Hlen; exact Hlen.
Qed.

Lemma init_long_enough e c m :
  ChatResponseModel_init e c = ok m -> long_enough m.
Proof. apply validate_long_enough. Qed.

Lemma init_short e c :
  len e < min_length ->
  ChatResponseModel_init e c = raise (ValidationError ["explanation"]).
Proof.
  intros H. apply Nat.ltb_lt in H.
  unfold ChatResponseModel_init, validate. simpl. rewrite H. reflexivity.
Qed.

Lemma init_long e c :
  min_length <= len e ->
  ChatResponseModel_init e c = ok {| explanation := e; code := c |}.
Proof.
  intros H. apply Nat.ltb_ge in H.
  unfold ChatResponseModel_init, validate. simpl. rewrite H. reflexivity.
Qed.

Lemma unpack_long_enough obj m :
  ChatResponseModel_unpack obj = ok m -> long_enough m.
Proof.
  destruct obj; simpl; try discriminate. apply validate_long_enough.
Qed.

Lemma model_validate_long_enough obj m :
  model_validate obj = ok m -> long_enough m.
Proof.
  destruct obj; simpl; try discriminate. apply validate_long_enough.
Qed.

Variable pj : string -> option Json.json.
Variable depth : nat.

Lemma parser_parse_long_enough t m :
  parser_parse pj t = ok m -> long_enough m.
Proof.
  unfold parser_parse. destruct (pj t) as [obj | ]; [ | discriminate ].
  destruct (model_validate obj) as [e | m'] eqn:Hv; [ discriminate | ].
  intros [= <-]. eapply model_validate_long_enough; eassumption.
Qed.

Lemma strategy_json_long_enough rc m :
  strategy_json depth rc = Leave (ok m) -> long_enough m.
Proof.
  unfold strategy_json.
  destruct (startswith rc "{" && endswith rc "}"); [ | discriminate ].
  destruct (Json.loads depth rc) as [f | obj]; [ destruct f; discriminate | ].
  intros [= H]. eapply unpack_long_enough; eassumption.
Qed.

Lemma strategy_block_long_enough rc m :
  strategy_block depth rc = Leave (ok m) -> long_enough m.
Proof.
  unfold strategy_block.
  destruct (contains "```json" rc || contains "```" rc); [ | discriminate ].
  destruct (Re.search_group Patterns.json_block rc); [ | discriminate ].
  destruct (Json.loads depth s) as [f | obj]; [ destruct f; discriminate | ].
  intros [= H]. eapply unpack_long_enough; eassumption.
Qed.

Lemma strategy_markdown_long_enough rc m :
  strategy_markdown rc = Leave (ok m) -> long_enough m.
Proof.
  unfold strategy_markdown.
  destruct (contains "**explanation:" (lower rc) || contains "**code:" (lower rc));
    [ | discriminate ].
  match goal with
  | |- (if truthy ?e then _ else _) = _ -> _ => destruct (truthy e); [ | discriminate ]
  end.
  match goal with
  | |- match ChatResponseModel_init ?e ?c with _ => _ end = _ -> _ =>
      destruct (ChatResponseModel_init e c) as [x | m'] eqn:Hi; [ discriminate | ]
  end.
  intros [= <-]. eapply init_long_enough; eassumption.
Qed.

Lemma strategy_parser_long_enough t m :
  strategy_parser pj t = Leave (ok m) -> long_enough m.
Proof.
  unfold strategy_parser.
  destruct (parser_parse pj t) as [x | m'] eqn:Hp; [ discriminate | ].
  intros [= <-]. eapply parser_parse_long_enough; eassumption.
Qed.

Lemma extract_try_long_enough t m :
  extract_try pj depth t = ok m -> long_enough m.
Proof.
  unfold extract_try.
  destruct (strategy_json depth (strip t)) as [r | ] eqn:H1.
  { intros ->. eapply strategy_json_long_enough; eassumption. }
  destruct (strategy_block depth (strip t)) as [r | ] eqn:H2.
  { intros ->. eapply strategy_block_long_enough; eassumption. }
  destruct (strategy_markdown (strip t)) as [r | ] eqn:H3.
  { intros ->. eapply strategy_markdown_long_enough; eassumption. }
  destruct (strategy_parser pj t) as [r | ] eqn:H4.
  { intros ->. eapply strategy_parser_long_enough; eassumption. }
  apply init_long_enough.
Qed.

Lemma extract_long_enough t m :
  extract pj depth t = ok m -> long_enough m.
Proof.
  unfold extract. destruct (negb (truthy t)).
  { apply init_long_enough. }
  destruct (extract_try pj depth t) as [e | m'] eqn:Ht.
  - apply init_long_enough.
  - intros [= <-]. eapply extract_try_long_enough; eassumption.
Qed.

(** When the body of the [try] does not return a reply, the handler or the
    last statement builds one from the text as received. *)
Lemma extract_falls_back t :
  truthy t = true ->
  (forall m, extract_try pj depth t <> ok m) ->
  extract pj depth t = ChatResponseModel_init t empty.
Proof.
  intros Ht Hno. unfold extract. rewrite Ht. simpl.
  destruct (extract_try pj depth t) as [e | m] eqn:H; [ reflexivity | ].
  exfalso. eapply Hno. reflexivity.
Qed.

End ExtractorFacts.

Section ExtractorClaims.

Import Text.

(** C10.  Every reply is built by [validate], which accepts no explanation
    of fewer than [min_length] = 10 characters: the keyword form raises a
    validation error on a shorter one; a reply that [validate], the
    unpacking call, [model_validate], the schema-guided parser or the
    extractor returns has an explanation of at least 10 characters; and on
    a non-empty text shorter than 10 characters, when the body of the
    [try] yields no reply, the last-resort fallback with the raw text as
    explanation raises the validation error out of the extractor. *)
Theorem reply_explanation_min_length :
  (forall e c, len e < min_length ->
     ChatResponseModel_init e c = raise (ValidationError ["explanation"]))
  /\ (forall kwargs m, validate kwargs = ok m -> min_length <= len (explanation m))
  /\ (forall obj m, ChatResponseModel_unpack obj = ok m ->
        min_length <= len (explanation m))
  /\ (forall obj m, model_validate obj = ok m -> min_length <= len (explanation m))
  /\ (forall pj t m, parser_parse pj t = ok m -> min_length <= len (explanation m))
  /\ (forall pj depth t m, extract pj depth t = ok m -> min_length <= len (explanation m))
  /\ (forall pj depth t, truthy t = true -> len t < min_length ->
        (forall m, extract_try pj depth t <> ok m) ->
        extract pj depth t = raise (ValidationError ["explanation"])).
Proof.
  split; [ exact init_short | ].
  split; [ exact validate_long_enough | ].
  split; [ exact unpack_long_enough | ].
  split; [ exact model_validate_long_enough | ].
  split; [ exact parser_parse_long_enough | ].
  split; [ exact extract_long_enough | ].
  intros pj depth t Ht Hlen Hno.
  rewrite (extract_falls_back pj depth t Ht Hno). apply init_short. exact Hlen.
Qed.

Lemma reply_explanation_min_length_witness :
  ChatResponseModel_init "too short" empty = raise (ValidationError ["explanation"])
  /\ min_length <= len (explanation {| explanation := "I built APIs."; code := "y" |})
  /\ extract Scenario.reader 900 "hi" = raise (ValidationError ["explanation"]).
Proof.
  destruct reply_explanation_min_length as (Hinit & _ & _ & _ & _ & Hextract & Hfallback).
  split; [ apply Hinit; vm_compute; lia | ].
  split; [ apply (Hextract Scenario.reader 900 Scenario.json_long); vm_compute; reflexivity | ].
  apply Hfallback.
  - reflexivity.
  - vm_compute; lia.
  - intros m. vm_compute. discriminate.
Defined.

(** C1, at the input on which it fails.  The text [hi] is not empty, no
    strategy parses it, and a reader that finds no JSON in it leaves the
    fallback: the extractor raises pydantic's validation error instead of
    returning a reply. *)
Theorem extract_raises_on_short_text (pj : string -> option Json.json) (depth : nat) :
  pj "hi" = None ->
  extract pj depth "hi" = raise (ValidationError ["explanation"]).
Proof.
  intros H.
  unfold extract, extract_try, strategy_parser, parser_parse.
  rewrite H. vm_compute. reflexivity.
Qed.

(** The same failure seen by the caller of the service: the validation
    error is a [ValueError], which [InvokeChat] raises again as it is, and
    no turn is saved. *)
Lemma InvokeChat_raises_on_short_completion :
  InvokeChat Scenario.terse (Some "Are you available?") None "alice@example.com"
    Scenario.model_name Scenario.temperature Scenario.top_p Scenario.store
  = (raise (ValidationError ["explanation"]),
     (InvokeChat Scenario.terse (Some "Are you available?") None "alice@example.com"
        Scenario.model_name Scenario.temperature Scenario.top_p Scenario.store).2)
  /\ chat_memory
       (InvokeChat Scenario.terse (Some "Are you available?") None "alice@example.com"
          Scenario.model_name Scenario.temperature Scenario.top_p Scenario.store).2
     = Scenario.rows.
Proof. split; vm_compute; reflexivity. Qed.

Lemma extract_raises_on_short_text_witness :
  extract Scenario.reader 900 "hi" = raise (ValidationError ["explanation"]).
Proof.
  apply (extract_raises_on_short_text Scenario.reader). vm_compute. reflexivity.
Defined.

(** The bold markers and the plain prose of the specification's
    examples. *)
Example extract_bold_markers (pj : string -> option Json.json) (depth : nat) :
  extract pj depth Scenario.bold_markers
  = ok {| explanation := "I built APIs."; code := "print(1)" |}.
Proof. vm_compute. reflexivity. Qed.

Example extract_plain_prose :
  extract Scenario.reader 900 Scenario.plain_prose
  = ok {| explanation := Scenario.plain_prose; code := empty |}.
Proof. vm_compute. reflexivity. Qed.





(** C3 as stated fails: on the empty text the explanation of the reply is
    not the empty text. *)
Lemma extract_empty_counterexample :
  extract Scenario.reader 900 empty <> ok {| explanation := empty; code := empty |}.
Proof. vm_compute. discriminate. Qed.

(** C3, amended.  On the empty text the extractor raises nothing and
    returns the fixed notice as explanation, with an empty code. *)
Theorem extract_empty (pj : string -> option Json.json) (depth : nat) :
  extract pj depth empty
  = ok {| explanation := "No response received from the LLM."; code := empty |}.
Proof. vm_compute. reflexivity. Qed.

End ExtractorClaims.

(** ** Computations *)

Section MonadFacts.

Context {A B : Type}.

Lemma bind_ok (m : M A) (f : A -> M B) s a s1 :
  m s = (ok a, s1) -> bind m f s = f a s1.
Proof. unfold bind. intros ->. reflexivity. Qed.

Lemma bind_raise (m : M A) (f : A -> M B) s e s1 :
  m s = (raise e, s1) -> bind m f s = (raise e, s1).
Proof. unfold bind. intros ->. reflexivity. Qed.

Lemma bind_ok_inv (m : M A) (f : A -> M B) s b s2 :
  bind m f s = (ok b, s2) ->
  exists a s1, m s = (ok a, s1) /\ f a s1 = (ok b, s2).
Proof.
  unfold bind. destruct (m s) as [[e | a] s1]; [ discriminate | ].
  intros H. exists a, s1. split; [ reflexivity | exact H ].
Qed.


Lemma catch_raise (m : M A) (h : exn -> M A) s e s1 :
  m s = (raise e, s1) -> catch m h s = h e s1.
Proof. unfold catch. intros ->. reflexivity. Qed.

End MonadFacts.

(** ** The audio step and the transcription *)

Section AudioFacts.

Import Text.

Variable w : World.

(** C9.  On an audio file of zero bytes [TranscribeAudio] raises the
    transcription exception with the message of the empty file, and the
    state is as before: the provider has not been called. *)
Theorem TranscribeAudio_empty_file (audio_path audio_data : string) (s : State) :
  files s !! audio_path = Some (File audio_data) ->
  len audio_data = 0 ->
  TranscribeAudio w audio_path s
  = (raise (AudioTranscriptionException "Audio file is empty" None), s).
Proof.
  intros Hfile Hsize.
  unfold TranscribeAudio, bind, get_state. simpl.
  rewrite Hfile, Hsize. reflexivity.
Qed.

(** An exception of the transcription leaves the audio step wrapped as the
    failure of the operation [audio_processing], after the clean-up. *)
Lemma process_audio_wraps (audio : UploadFile.t) s1 path s2 e s3 :
  save_upload w (upload_suffix audio) (UploadFile.content audio) s1 = (ok path, s2) ->
  TranscribeAudio w path s2 = (raise e, s3) ->
  process_audio w audio s1 = (raise (audio_error e), clean_up w path s3).
Proof.
  intros Hsave Htr.
  unfold process_audio, attempt, bind. rewrite Hsave. simpl.
  unfold finally, catch. rewrite Htr. reflexivity.
Qed.

(** C4, amended.  With audio present, once the user and the resume are
    found and the upload is saved, an exception [e] of the transcription
    leaves [InvokeChat] as [DatabaseOperationException] of the operation
    [audio_processing] with the text of [e] as details: it is raised to the
    caller, after the clean-up of the temporary file. *)
Theorem InvokeChat_wraps_transcription_failure
  (text : option string) (audio : UploadFile.t) (email model : string)
  (temperature top_p : Q) (s : State)
  user_request found s1 path s2 e s3 :
  UserRequestModel w email s = (ok user_request, s) ->
  GetResumeDetails w user_request s = (ok found, s1) ->
  save_upload w (upload_suffix audio) (UploadFile.content audio) s1 = (ok path, s2) ->
  TranscribeAudio w path s2 = (raise e, s3) ->
  InvokeChat w text (Some audio) email model temperature top_p s
  = (raise (DatabaseOperationException "audio_processing" (str_exn e)),
     clean_up w path s3).
Proof.
  intros Hreq Hfound Hsave Htr.
  assert (Hanswer : answer w text (Some audio) email model temperature top_p s
                    = (raise (audio_error e), clean_up w path s3)).
  { unfold answer.
    rewrite (bind_ok _ _ _ _ _ Hreq), (bind_ok _ _ _ _ _ Hfound).
    destruct found as [resume_details_list user_id].
    apply bind_raise. eapply process_audio_wraps; eassumption. }
  unfold InvokeChat, InvokeChat_try. rewrite andb_false_r.
  rewrite (catch_raise _ _ _ _ _ (bind_raise _ _ _ _ _ Hanswer)).
  reflexivity.
Qed.

End AudioFacts.

Lemma TranscribeAudio_empty_file_witness :
  TranscribeAudio Scenario.calm Scenario.temp_path (Scenario.saved Text.empty)
  = (raise (AudioTranscriptionException "Audio file is empty" None),
     Scenario.saved Text.empty).
Proof.
  apply (TranscribeAudio_empty_file Scenario.calm Scenario.temp_path Text.empty).
  - vm_compute. reflexivity.
  - reflexivity.
Defined.

(** C4 as stated fails: with audio present and a transcription provider
    that fails, what [InvokeChat] raises is no transcription exception. *)
Lemma InvokeChat_transcription_failure_counterexample :
  ~ (exists message details,
       (InvokeChat Scenario.deaf None (Some Scenario.recording) "alice@example.com"
          Scenario.model_name Scenario.temperature Scenario.top_p Scenario.store).1
       = raise (AudioTranscriptionException message details)).
Proof. intros (message & details & H). vm_compute in H. discriminate. Qed.

Lemma InvokeChat_wraps_transcription_failure_witness :
  (InvokeChat Scenario.deaf None (Some Scenario.recording) "alice@example.com"
     Scenario.model_name Scenario.temperature Scenario.top_p Scenario.store).1
  = raise (DatabaseOperationException "audio_processing"
             "Failed to transcribe audio using Groq API").
Proof.
  erewrite (InvokeChat_wraps_transcription_failure Scenario.deaf); cycle 1.
  - vm_compute. reflexivity.
  - vm_compute. reflexivity.
  - vm_compute. reflexivity.
  - vm_compute. reflexivity.
  - reflexivity.
Defined.

(** C6.  With neither text nor audio, and also with an empty text and no
    audio, [InvokeChat] raises [ValueError], the validation error of the
    service, and the state is as before: no call has been logged, so no
    collaborator was invoked. *)
Theorem InvokeChat_requires_input (w : World) (email model : string)
  (temperature top_p : Q) (s : State) :
  InvokeChat w None None email model temperature top_p s
  = (raise (ValueError "Either text or audio input must be provided"), s)
  /\ InvokeChat w (Some Text.empty) None email model temperature top_p s
     = (raise (ValueError "Either text or audio input must be provided"), s).
Proof. split; reflexivity. Qed.

(** ** The files: only the audio step touches them *)

Section FilesFacts.

Variable w : World.
Variable F : gmap string node.

Lemma at_files_ret {A : Type} (a : A) : at_files F (ret a).
Proof. intros s Hs. exact Hs. Qed.

Lemma at_files_throw {A : Type} (e : exn) : at_files F (@throw A e).
Proof. intros s Hs. exact Hs. Qed.

Lemma at_files_return {A : Type} (r : result A) : at_files F (fun s => (r, s)).
Proof. intros s Hs. exact Hs. Qed.

Lemma at_files_get_state : at_files F get_state.
Proof. intros s Hs. exact Hs. Qed.

Lemma at_files_modify (f : State -> State) :
  (forall s, files (f s) = files s) -> at_files F (modify f).
Proof. intros Hf s Hs. simpl. rewrite Hf. exact Hs. Qed.

Lemma at_files_log (c : call) : at_files F (log c).
Proof. apply at_files_modify. reflexivity. Qed.

Lemma at_files_bind {A B : Type} (m : M A) (f : A -> M B) :
  at_files F m -> (forall a, at_files F (f a)) -> at_files F (bind m f).
Proof.
  intros Hm Hf s Hs. unfold bind. specialize (Hm s Hs).
  destruct (m s) as [[e | a] s1]; simpl in *; [ exact Hm | ].
  apply Hf. exact Hm.
Qed.

Lemma at_files_catch {A : Type} (m : M A) (h : exn -> M A) :
  at_files F m -> (forall e, at_files F (h e)) -> at_files F (catch m h).
Proof.
  intros Hm Hh s Hs. unfold catch. specialize (Hm s Hs).
  destruct (m s) as [[e | a] s1]; simpl in *; [ | exact Hm ].
  apply Hh. exact Hm.
Qed.

Lemma at_files_attempt {A : Type} (m : M A) : at_files F m -> at_files F (attempt m).
Proof.
  intros Hm s Hs. unfold attempt. specialize (Hm s Hs).
  destruct (m s) as [r s1]. exact Hm.
Qed.

Lemma at_files_finally {A : Type} (m : M A) (f : State -> State) :
  at_files F m -> (forall s, files s = F -> files (f s) = F) ->
  at_files F (finally m f).
Proof.
  intros Hm Hf s Hs. unfold finally. specialize (Hm s Hs).
  destruct (m s) as [r s1]. simpl in *. apply Hf. exact Hm.
Qed.

End FilesFacts.

(** Splits a computation along its binds, handlers and case
    distinctions. *)
Ltac files_kept :=
  repeat first
    [ progress intros
    | progress cbv beta zeta
    | apply at_files_ret | apply at_files_throw | apply at_files_get_state
    | apply at_files_log | apply at_files_return
    | apply at_files_modify; reflexivity
    | apply at_files_bind | apply at_files_catch | apply at_files_attempt
    | match goal with
      | |- at_files _ (match ?x with _ => _ end) => destruct x
      end
    | assumption ].

Section FilesOfServices.

Variable w : World.
Variable F : gmap string node.

Lemma at_files_db_call c : at_files F (db_call w c).
Proof. unfold db_call. files_kept. Qed.

Lemma at_files_query_user email : at_files F (query_user w email).
Proof. unfold query_user. files_kept. Qed.

Lemma at_files_query_resume u : at_files F (query_resume w u).
Proof. unfold query_resume. files_kept. Qed.

Lemma at_files_query_history n u : at_files F (query_history w n u).
Proof. unfold query_history. files_kept. Qed.

Lemma at_files_save_conversation b i r : at_files F (save_conversation w b i r).
Proof.
  unfold save_conversation, db_add, db_commit, db_rollback.
  files_kept.
Qed.

Lemma at_files_GetResumeDetails email : at_files F (GetResumeDetails w email).
Proof.
  unfold GetResumeDetails. files_kept.
Qed.

Lemma at_files_TranscribeAudio path : at_files F (TranscribeAudio w path).
Proof. unfold TranscribeAudio. files_kept. Qed.

Lemma at_files_Llm p m t tp st : at_files F (Llm w p m t tp st).
Proof. unfold Llm. files_kept. Qed.

Lemma at_files_invoke chain : at_files F (invoke w chain).
Proof. unfold invoke. files_kept. Qed.

Lemma at_files_combine_inputs text tr : at_files F (combine_inputs text tr).
Proof. unfold combine_inputs. files_kept. Qed.

Lemma at_files_fetch_history email : at_files F (fetch_history w email).
Proof.
  unfold fetch_history. files_kept.
Qed.

End FilesOfServices.

Section FilesOfAudio.

Variable w : World.

Lemma save_upload_ok suffix content path s :
  mkstemp w suffix (files s) = inr path ->
  save_upload w suffix content s
  = (ok path,
     set_files (<[path := File content]> (files s))
       (set_calls (CreateTemp suffix :: calls s) s)).
Proof.
  intros H. unfold save_upload, log, modify, get_state, ret, bind. simpl.
  rewrite H. reflexivity.
Qed.

Lemma save_upload_raise suffix content e s :
  mkstemp w suffix (files s) = inl e ->
  save_upload w suffix content s
  = (raise e, set_calls (CreateTemp suffix :: calls s) s).
Proof.
  intros H. unfold save_upload, log, modify, get_state, ret, bind. simpl.
  rewrite H. reflexivity.
Qed.

(** The clean-up of a file that is there: it is gone when the unlink
    succeeds and stays when it fails. *)
Lemma clean_up_files path s :
  Text.truthy path = true ->
  is_Some (files s !! path) ->
  files (clean_up w path s)
  = match unlink_fault w path with
    | Some _ => files s
    | None => delete path (files s)
    end.
Proof.
  intros Hpath [n Hn]. unfold clean_up. rewrite Hpath, Hn.
  destruct (unlink_fault w path); reflexivity.
Qed.

(** The audio step, when the unlink succeeds on a fresh temporary file:
    the file is written and removed again. *)
Lemma at_files_process_audio F audio path :
  mkstemp w (upload_suffix audio) F = inr path ->
  Text.truthy path = true ->
  F !! path = None ->
  unlink_fault w path = None ->
  at_files F (process_audio w audio).
Proof.
  intros Hmk Hpath Hfresh Hunlink s Hs.
  rewrite <- Hs in Hmk.
  unfold process_audio, attempt, bind.
  rewrite (save_upload_ok _ (UploadFile.content audio) _ _ Hmk). simpl.
  unfold finally.
  match goal with
  | |- context [catch ?m ?h ?s0] =>
      pose proof (at_files_catch (files s0) m h
                    (at_files_TranscribeAudio w (files s0) path)
                    (fun e => at_files_throw (files s0) (audio_error e))
                    s0 eq_refl) as Hkept;
      destruct (catch m h s0) as [r s3]
  end.
  simpl in *.
  rewrite clean_up_files.
  - rewrite Hunlink, Hkept, Hs. apply delete_insert_id. exact Hfresh.
  - exact Hpath.
  - rewrite Hkept. rewrite lookup_insert_eq. eauto.
Qed.

(** The audio step, when the temporary file cannot be created. *)
Lemma at_files_process_audio_uncreated F audio e :
  mkstemp w (upload_suffix audio) F = inl e ->
  at_files F (process_audio w audio).
Proof.
  intros Hmk s Hs. rewrite <- Hs in Hmk.
  unfold process_audio, attempt, bind.
  rewrite (save_upload_raise _ (UploadFile.content audio) _ _ Hmk). simpl.
  exact Hs.
Qed.

End FilesOfAudio.

(** ** The orchestrator *)

Section InvokeChatFacts.

Import Text.

Variable w : World.

Lemma at_files_InvokeChat F text audio path email model temperature top_p :
  mkstemp w (upload_suffix audio) F = inr path ->
  Text.truthy path = true ->
  F !! path = None ->
  unlink_fault w path = None ->
  at_files F (InvokeChat w text (Some audio) email model temperature top_p).
Proof.
  intros Hmk Hpath Hfresh Hunlink.
  unfold InvokeChat. rewrite andb_false_r.
  apply at_files_catch; [ | files_kept ].
  unfold InvokeChat_try.
  apply at_files_bind; [ | intros a; apply at_files_bind;
                           [ apply at_files_save_conversation | files_kept ] ].
  unfold answer.
  apply at_files_bind; [ unfold UserRequestModel; files_kept | intros user_request ].
  apply at_files_bind; [ apply at_files_GetResumeDetails | intros [resumes user_id] ].
  apply at_files_bind; [ eapply at_files_process_audio; eassumption | intros transcribed ].
  apply at_files_bind; [ apply at_files_combine_inputs | intros input ].
  apply at_files_bind; [ apply at_files_fetch_history | intros [db_user history] ].
  apply at_files_bind; [ apply at_files_invoke | files_kept ].
Qed.

(** C5, amended.  For every call with audio present and every way it ends,
    by a reply or by an exception: when the unlink of the temporary file
    succeeds, the file that the audio step creates under a fresh name is
    absent when the call returns or raises, and the files are the ones from
    before the call. *)
Theorem InvokeChat_removes_temporary_file
  (text : option string) (audio : UploadFile.t) (email model : string)
  (temperature top_p : Q) (s : State) (path : string)
  (r : result Response.t) (s' : State) :
  mkstemp w (upload_suffix audio) (files s) = inr path ->
  Text.truthy path = true ->
  files s !! path = None ->
  unlink_fault w path = None ->
  InvokeChat w text (Some audio) email model temperature top_p s = (r, s') ->
  files s' !! path = None /\ files s' = files s.
Proof.
  intros Hmk Hpath Hfresh Hunlink Hrun.
  pose proof (at_files_InvokeChat (files s) text audio path email model
                temperature top_p Hmk Hpath Hfresh Hunlink s eq_refl) as Hkept.
  rewrite Hrun in Hkept. simpl in Hkept.
  split; [ rewrite Hkept; exact Hfresh | exact Hkept ].
Qed.

(** Without text and without audio the chain is never reached. *)
Lemma answer_needs_input text email model temperature top_p s a s1 :
  answer w text None email model temperature top_p s = (ok a, s1) ->
  text_present text = true.
Proof.
  unfold answer. intros H.
  apply bind_ok_inv in H as (user_request & s2 & _ & H).
  apply bind_ok_inv in H as ([resumes user_id] & s3 & _ & H).
  apply bind_ok_inv in H as (transcribed & s4 & Htr & H).
  apply bind_ok_inv in H as (input & s5 & Hin & _).
  injection Htr as <- _.
  unfold combine_inputs in Hin.
  destruct text as [t | ]; simpl in *; [ | discriminate ].
  destruct (truthy t); [ reflexivity | discriminate ].
Qed.





End InvokeChatFacts.

Lemma InvokeChat_removes_temporary_file_witness :
  files (InvokeChat Scenario.calm None (Some Scenario.recording) "alice@example.com"
           Scenario.model_name Scenario.temperature Scenario.top_p Scenario.store).2
    !! Scenario.temp_path = None.
Proof.
  eapply (InvokeChat_removes_temporary_file Scenario.calm None Scenario.recording
            "alice@example.com" Scenario.model_name Scenario.temperature
            Scenario.top_p Scenario.store Scenario.temp_path).
  - vm_compute. reflexivity.
  - reflexivity.
  - vm_compute. reflexivity.
  - vm_compute. reflexivity.
  - apply surjective_pairing.
Defined.

(** C5 as stated fails: when the unlink of the temporary file fails, the
    call returns its reply and the file is still there. *)
Lemma InvokeChat_temporary_file_counterexample :
  mkstemp Scenario.sticky (upload_suffix Scenario.recording) (files Scenario.store)
  = inr Scenario.temp_path
  /\ files (InvokeChat Scenario.sticky None (Some Scenario.recording)
              "alice@example.com" Scenario.model_name Scenario.temperature
              Scenario.top_p Scenario.store).2
       !! Scenario.temp_path <> None.
Proof. split; [ vm_compute; reflexivity | vm_compute; discriminate ]. Qed.



(** ** The history window *)

Section HistoryFacts.

Import Text.

#[local] Instance newer_first_total : Total newer_first.
Proof. intros a b. unfold newer_first. lia. Qed.

#[local] Instance newer_first_transitive : Transitive newer_first.
Proof. intros a b c. unfold newer_first. lia. Qed.

Variable limit : nat.
Variable user_id : string.
Variable rows : list ChatMemory.t.

(** The chat turns of the user, newest first, before the cut. *)
Let ordered : list ChatMemory.t :=
  merge_sort newer_first (filter (is_chat_of user_id) rows).

Lemma ordered_sorted : StronglySorted newer_first (take limit ordered ++ drop limit ordered).
Proof. rewrite take_drop. apply StronglySorted_merge_sort; apply _. Qed.

Lemma chat_messages_of_chat m :
  m ∈ chat_messages_of limit user_id rows ->
  m ∈ rows /\ ChatMemory.user_id m = user_id /\ ChatMemory.resume_details m = None.
Proof.
  unfold chat_messages_of. intros Hm.
  apply subseteq_take in Hm.
  rewrite merge_sort_Permutation in Hm.
  apply list_elem_of_filter in Hm as [[Hu Hr] Hin].
  repeat split; assumption.
Qed.

Lemma chat_messages_of_length : length (chat_messages_of limit user_id rows) <= limit.
Proof. unfold chat_messages_of. rewrite length_take. lia. Qed.

Lemma history_oldest_first :
  Sorted older_first (reverse (chat_messages_of limit user_id rows)).
Proof.
  apply (Sorted_reverse newer_first).
  apply StronglySorted_Sorted.
  exact (StronglySorted_app_1_l _ _ _ ordered_sorted).
Qed.

Lemma history_newest_chosen :
  exists older,
    filter (is_chat_of user_id) rows
      ≡ₚ older ++ reverse (chat_messages_of limit user_id rows)
    /\ Forall (fun o => Forall (older_first o)
                          (reverse (chat_messages_of limit user_id rows))) older.
Proof.
  exists (drop limit ordered). split.
  - rewrite reverse_Permutation.
    rewrite (Permutation_app_comm (drop limit ordered)).
    unfold chat_messages_of. fold ordered. rewrite take_drop.
    unfold ordered. symmetry. apply merge_sort_Permutation.
  - apply Forall_forall. intros o Ho.
    apply Forall_forall. intros m Hm.
    rewrite elem_of_reverse in Hm.
    exact (StronglySorted_app_1_elem_of _ _ _ _ _ ordered_sorted Hm Ho).
Qed.

End HistoryFacts.

(** C7.  For every table, user and limit, the history is built from the
    turns selected by the query, taken oldest first: it holds the message
    texts of the selected turns and nothing else (a turn whose message is
    empty contributes none); every selected turn is a turn of the table
    that belongs to the user and has no resume details; as many turns are
    selected as there are such turns, up to [limit] and no more; they are
    in the order of their creation, oldest first; and they are the newest
    ones, no turn that was left out being newer than a selected one.  On an
    empty table the history is empty.  The history step of [InvokeChat]
    never raises and asks for 10 turns: when the query of the user raises
    it yields no user and the empty history, when there is no such user
    the empty history, when the query of the turns raises the user and the
    empty history, and otherwise the user and the history of the 10 newest
    turns of that user in the table. *)
Theorem history_window (limit : nat) (user_id : string) :
  (forall rows : list ChatMemory.t,
     let candidates := filter (is_chat_of user_id) rows in
     let selected := reverse (chat_messages_of limit user_id rows) in
     let history := history_of (chat_messages_of limit user_id rows) in
     history = List.filter Text.truthy (map ChatMemory.message selected)
     /\ Forall (fun m => m ∈ rows
                         /\ ChatMemory.user_id m = user_id
                         /\ ChatMemory.resume_details m = None) selected
     /\ length selected = Nat.min limit (length candidates)
     /\ length history <= limit
     /\ Sorted older_first selected
     /\ exists older,
          candidates ≡ₚ older ++ selected
          /\ Forall (fun o => Forall (older_first o) selected) older)
  /\ history_of (chat_messages_of limit user_id []) = []
  /\ (forall (w : World) (email : string) (s : State),
        (fetch_history w email s).1
        = ok (match db_fault w (QueryUser (Text.lower email) :: calls s) with
              | Some _ => (Unbound, [])
              | None =>
                  match List.find (fun u => String.eqb (User.email u) (Text.lower email))
                          (users s) with
                  | None => (Bound None, [])
                  | Some u =>
                      match db_fault w (QueryHistory (User.id u)
                                          :: QueryUser (Text.lower email) :: calls s) with
                      | Some _ => (Bound (Some u), [])
                      | None =>
                          (Bound (Some u),
                           history_of (chat_messages_of 10 (User.id u) (chat_memory s)))
                      end
                  end
              end)).
Proof.
  split; [ | split ].
  - intros rows candidates selected history. subst candidates selected history.
    split; [ reflexivity | ].
    split.
    { apply Forall_forall. intros m Hm. rewrite elem_of_reverse in Hm.
      eapply chat_messages_of_chat; eassumption. }
    assert (Hlen : length (reverse (chat_messages_of limit user_id rows))
                   = Nat.min limit (length (filter (is_chat_of user_id) rows))).
    { rewrite length_reverse. unfold chat_messages_of. rewrite length_take.
      rewrite (Permutation_length
                 (merge_sort_Permutation newer_first (filter (is_chat_of user_id) rows))).
      reflexivity. }
    split; [ exact Hlen | ].
    split.
    { unfold history_of.
      etransitivity; [ apply List.filter_length_le | ].
      rewrite List.length_map, Hlen. apply Nat.le_min_l. }
    split; [ apply history_oldest_first | apply history_newest_chosen ].
  - unfold history_of, chat_messages_of.
    change (merge_sort newer_first (filter (is_chat_of user_id) [])) with (@nil ChatMemory.t).
    rewrite take_nil. reflexivity.
  - intros w email s.
    unfold fetch_history, query_user, query_history, db_call, log, modify,
      attempt, get_state, ret, throw, bind.
    simpl.
    destruct (db_fault w (QueryUser (Text.lower email) :: calls s)); simpl;
      [ reflexivity | ].
    destruct (List.find _ (users s)) as [u | ]; simpl; [ | reflexivity ].
    destruct (db_fault w _); simpl; reflexivity.
Qed.

(** * Further properties of the sources *)

(** ** The extractor on texts of every length *)

Section ExtractorReach.

Import Text.

Variable pj : string -> option Json.json.
Variable depth : nat.

Lemma extract_raise_inv t e :
  extract pj depth t = raise e ->
  e = ValidationError ["explanation"] /\ 0 < len t < min_length.
Proof.
  unfold extract.
  destruct t as [ | c t']; [ vm_compute; discriminate | ].
  simpl negb. cbv iota.
  destruct (extract_try pj depth (String c t')) as [e' | m]; [ | discriminate ].
  destruct (Nat.lt_ge_cases (len (String c t')) min_length) as [Hshort | Hlong].
  - rewrite (init_short _ _ Hshort). intros [= <-].
    split; [ reflexivity | ]. split; [ simpl; lia | exact Hshort ].
  - rewrite (init_long _ _ Hlong). discriminate.
Qed.

(** X1.  The extractor raises on non-empty texts of fewer than 10 characters
    and on no other text, and what it raises is the validation error of the
    explanation. *)
Theorem extract_raises_only_on_short_text :
  (forall t, min_length <= len t -> exists m, extract pj depth t = ok m)
  /\ (forall t e, extract pj depth t = raise e ->
        e = ValidationError ["explanation"] /\ 0 < len t < min_length).
Proof.
  split; [ | exact extract_raise_inv ].
  intros t Hlong. destruct (extract pj depth t) as [e | m] eqn:H; [ | eauto ].
  apply extract_raise_inv in H. lia.
Qed.

End ExtractorReach.

Lemma extract_raises_only_on_short_text_witness :
  (exists m, extract Scenario.reader 900 Scenario.plain_prose = ok m)
  /\ 0 < Text.len "hi" < min_length.
Proof.
  destruct (extract_raises_only_on_short_text Scenario.reader 900) as [Hlong Hshort].
  split.
  - apply Hlong. vm_compute. lia.
  - apply (Hshort "hi" (ValidationError ["explanation"])). vm_compute. reflexivity.
Defined.

Section ExtractorPaths.

Import Text.

Lemma prefix_chars_app p q l :
  prefix_chars (p ++ q) l = true -> prefix_chars p l = true.
Proof.
  revert l. induction p as [ | a p IH]; intros l; [ reflexivity | ].
  destruct l as [ | b l]; simpl; [ discriminate | ].
  destruct (Ascii.eqb a b); [ apply IH | discriminate ].
Qed.

Lemma contains_chars_app p q l :
  contains_chars (p ++ q) l = true -> contains_chars p l = true.
Proof.
  induction l as [ | b l IH].
  - simpl. rewrite !orb_false_r. apply prefix_chars_app.
  - intros H. simpl in H. apply orb_true_iff in H as [H | H].
    + simpl. rewrite (prefix_chars_app _ _ _ H). reflexivity.
    + simpl. rewrite (IH H). apply orb_true_r.
Qed.

(** A text without a fence holds no tagged fence either. *)
Lemma no_fence_no_json_fence rc :
  contains "```" rc = false -> contains "```json" rc = false.
Proof.
  intros H. destruct (contains "```json" rc) eqn:Hj; [ | reflexivity ].
  unfold contains in *.
  change (chars "```json") with (chars "```" ++ chars "json") in Hj.
  apply contains_chars_app in Hj. congruence.
Qed.

Variable pj : string -> option Json.json.
Variable depth : nat.

(** X2.  A text of at least 10 characters that is no JSON object, has no fence
    and no bold marker, and in which the schema-guided parser finds no valid
    reply, comes back whole as the explanation, white space at its ends
    included, with an empty code. *)
Theorem extract_returns_unstructured_text (t : string) :
  min_length <= len t ->
  startswith (strip t) "{" && endswith (strip t) "}" = false ->
  contains "```" (strip t) = false ->
  contains "**explanation:" (lower (strip t)) = false ->
  contains "**code:" (lower (strip t)) = false ->
  (forall m, parser_parse pj t <> ok m) ->
  extract pj depth t = ok {| explanation := t; code := empty |}.
Proof.
  intros Hlen Hjson Hfence Hexp Hcode Hparser.
  assert (Ht : truthy t = true).
  { destruct t; [ vm_compute in Hlen; lia | reflexivity ]. }
  unfold extract, extract_try, strategy_json, strategy_block, strategy_markdown,
    strategy_parser.
  rewrite Ht, Hjson, Hfence, (no_fence_no_json_fence _ Hfence), Hexp, Hcode.
  simpl.
  destruct (parser_parse pj t) as [e | m] eqn:Hp.
  - rewrite (init_long _ _ Hlen). reflexivity.
  - exfalso. exact (Hparser m eq_refl).
Qed.

(** X3.  A text that is a JSON object which the model rejects, by a missing or
    short explanation or by a field that is no string, is not tried by the
    later strategies: when it has at least 10 characters it comes back whole
    as the explanation with an empty code. *)
Theorem extract_returns_rejected_json (t : string) (obj : Json.json) (e : exn) :
  min_length <= len t ->
  startswith (strip t) "{" && endswith (strip t) "}" = true ->
  Json.loads depth (strip t) = inr obj ->
  ChatResponseModel_unpack obj = raise e ->
  extract pj depth t = ok {| explanation := t; code := empty |}.
Proof.
  intros Hlen Hjson Hloads Hunpack.
  assert (Ht : truthy t = true).
  { destruct t; [ vm_compute in Hlen; lia | reflexivity ]. }
  unfold extract, extract_try, strategy_json.
  rewrite Ht, Hjson, Hloads, Hunpack. simpl.
  apply init_long. exact Hlen.
Qed.

(** X25.  A text that looks like a JSON object and on which [json.loads]
    raises another error than its own, for an integer of too many digits
    or for containers nested too deep, is not tried by the later
    strategies either, whatever it holds: when it has at least 10
    characters it comes back whole as the explanation with an empty
    code. *)
Theorem extract_returns_undecodable_json (t : string) :
  min_length <= len t ->
  startswith (strip t) "{" && endswith (strip t) "}" = true ->
  (exists digits, Json.loads depth (strip t) = inl (Json.TooManyDigits digits))
  \/ (exists container, Json.loads depth (strip t) = inl (Json.TooDeep container)) ->
  strategy_json depth (strip t) <> Fall
  /\ extract pj depth t = ok {| explanation := t; code := empty |}.
Proof.
  intros Hlen Hjson Hloads.
  assert (Ht : truthy t = true).
  { destruct t; [ vm_compute in Hlen; lia | reflexivity ]. }
  unfold extract, extract_try, strategy_json.
  rewrite Ht, Hjson.
  destruct Hloads as [[digits ->] | [container ->]]; simpl;
    (split; [ discriminate | apply init_long; exact Hlen ]).
Qed.

End ExtractorPaths.

Lemma extract_returns_unstructured_text_witness :
  extract Scenario.reader 900 Scenario.plain_prose
  = ok {| explanation := Scenario.plain_prose; code := Text.empty |}.
Proof.
  apply extract_returns_unstructured_text.
  - vm_compute. lia.
  - vm_compute. reflexivity.
  - vm_compute. reflexivity.
  - vm_compute. reflexivity.
  - vm_compute. reflexivity.
  - intros m. vm_compute. discriminate.
Defined.

Lemma extract_returns_undecodable_json_witness :
  extract Scenario.reader 900 Cases.json_big
  = ok {| explanation := Cases.json_big; code := Text.empty |}.
Proof.
  eapply (extract_returns_undecodable_json Scenario.reader 900 Cases.json_big).
  - vm_compute. lia.
  - vm_compute. reflexivity.
  - left. exists 4301. vm_compute. reflexivity.
Defined.

Lemma extract_returns_rejected_json_witness :
  extract Scenario.reader 900 Scenario.json_xy
  = ok {| explanation := Scenario.json_xy; code := Text.empty |}.
Proof.
  eapply (extract_returns_rejected_json Scenario.reader 900 Scenario.json_xy).
  - vm_compute. lia.
  - vm_compute. reflexivity.
  - vm_compute. reflexivity.
  - vm_compute. reflexivity.
Defined.

(** ** The providers: [Llm], [LlmRunnable.invoke] and [TranscribeAudio] *)

Section ProviderFacts.

Import Text.

Variable w : World.

Lemma Llm_raises system_prompt model temperature top_p stream s e s' :
  Llm w system_prompt model temperature top_p stream s = (raise e, s') ->
  exists message details, e = LLMException message details.
Proof.
  unfold Llm, catch.
  match goal with
  | |- context [match ?m s with _ => _ end] => destruct (m s) as [[e0 | c] s0]
  end; [ | discriminate ].
  destruct (is_GroqError e0); intros [= <- _]; eauto.
Qed.

(** X4.  Whatever fails in the call of the model, [LlmRunnable.invoke] raises
    one of two exceptions: [LLMException] from [Llm], or the validation error
    of a reply whose text is too short. *)
Theorem invoke_raises_LLMException_or_ValidationError
  (self : LlmRunnable.t) (s : State) (e : exn) (s' : State) :
  invoke w self s = (raise e, s') ->
  (exists message details, e = LLMException message details)
  \/ e = ValidationError ["explanation"].
Proof.
  unfold invoke, bind.
  match goal with
  | |- context [match ?m s with _ => _ end] => destruct (m s) as [[e0 | c] s0] eqn:HLlm
  end.
  - intros [= <- _]. left. eapply Llm_raises. exact HLlm.
  - intros [= H _]. right.
    destruct (extract_raise_inv (parse_json_markdown w) (recursion_limit w) _ _ H).
    assumption.
Qed.

End ProviderFacts.

Lemma invoke_raises_LLMException_or_ValidationError_witness :
  (exists message details,
     ValidationError ["explanation"] = LLMException message details)
  \/ ValidationError ["explanation"] = ValidationError ["explanation"].
Proof.
  eapply (invoke_raises_LLMException_or_ValidationError Scenario.terse
            (GetChain "Python developer" "Are you available?" []
               Scenario.model_name Scenario.temperature Scenario.top_p)
            Scenario.store).
  vm_compute. reflexivity.
Defined.

Section MissingKey.

Import Text.

Variable w : World.

(** X5.  Without an API key neither provider is called: [Llm] and
    [TranscribeAudio] raise their exception with the state as it was, and
    since the check sits inside their [try], the message about the key is
    carried as the details of the exception for unexpected errors. *)
Theorem providers_need_api_key
  (system_prompt model : string) (temperature top_p : Q) (stream : bool)
  (audio_path audio_data : string) (s : State) :
  api_key_set w = false ->
  files s !! audio_path = Some (File audio_data) ->
  len audio_data <> 0 ->
  Llm w system_prompt model temperature top_p stream s
  = (raise (LLMException "An unexpected error occurred during LLM invocation"
              (Some key_message)), s)
  /\ TranscribeAudio w audio_path s
     = (raise (AudioTranscriptionException
                 "An unexpected error occurred during audio transcription"
                 (Some key_message)), s).
Proof.
  intros Hkey Hfile Hsize. split.
  - unfold Llm, catch. rewrite Hkey. reflexivity.
  - unfold TranscribeAudio, bind, get_state. simpl. rewrite Hfile.
    destruct (len audio_data =? 0) eqn:Hzero;
      [ apply Nat.eqb_eq in Hzero; contradiction | ].
    unfold catch. rewrite Hkey. reflexivity.
Qed.

End MissingKey.

Lemma providers_need_api_key_witness :
  (Llm Cases.keyless "Hello" Scenario.model_name Scenario.temperature
     Scenario.top_p false (Scenario.saved "RIFF")).2
  = Scenario.saved "RIFF"
  /\ (TranscribeAudio Cases.keyless Scenario.temp_path (Scenario.saved "RIFF")).2
     = Scenario.saved "RIFF".
Proof.
  destruct (providers_need_api_key Cases.keyless "Hello" Scenario.model_name
              Scenario.temperature Scenario.top_p false Scenario.temp_path "RIFF"
              (Scenario.saved "RIFF")) as [HLlm Haudio].
  - reflexivity.
  - vm_compute. reflexivity.
  - vm_compute. lia.
  - rewrite HLlm, Haudio. split; reflexivity.
Defined.

Section TranscribeAudioFacts.

Import Text.

Variable w : World.

(** X6.  What [TranscribeAudio] raises: on a missing path [FileNotFoundError],
    on a directory [ValueError], both before anything else happens; and on a
    file [AudioTranscriptionException], whatever the provider or the
    environment did, except that a [FileNotFoundError] of the provider's call
    passes through its handlers as it is. *)
Theorem TranscribeAudio_raises (audio_path : string) (s : State) (e : exn) (s' : State) :
  TranscribeAudio w audio_path s = (raise e, s') ->
  match files s !! audio_path with
  | None => e = FileNotFoundError ("Audio file not found: " +:+ audio_path) /\ s' = s
  | Some Directory => e = ValueError ("Path is not a file: " +:+ audio_path) /\ s' = s
  | Some (File audio_data) =>
      (exists message details, e = AudioTranscriptionException message details)
      \/ (transcriptions_create w audio_path audio_data = raise e
          /\ is_FileNotFoundError e = true)
  end.
Proof.
  unfold TranscribeAudio, bind, get_state. simpl.
  destruct (files s !! audio_path) as [[data | ] | ].
  - destruct (len data =? 0); [ intros [= <- _]; eauto | ].
    unfold catch.
    match goal with
    | |- context [match ?m s with _ => _ end] => destruct (m s) as [[e0 | t] s0] eqn:Hbody
    end; [ | discriminate ].
    destruct (is_FileNotFoundError e0) eqn:Hnf.
    + intros [= <- _]. right. revert Hbody.
      destruct (negb (api_key_set w)); [ intros [= <- _]; discriminate | ].
      unfold bind, log, modify. simpl.
      destruct (transcriptions_create w audio_path data) as [e1 | [t | ]] eqn:Hcreate.
      * intros [= <- _]. split; [ reflexivity | exact Hnf ].
      * destruct (truthy t); [ discriminate | intros [= <- _]; discriminate ].
      * intros [= <- _]. discriminate.
    + destruct (is_GroqError e0); intros [= <- _]; eauto.
  - intros [= <- <-]. split; reflexivity.
  - intros [= <- <-]. split; reflexivity.
Qed.

(** X7.  When [TranscribeAudio] returns, the file is there and not empty, the
    provider has been called once, with the bytes of the file, and has
    answered a text that is not empty; what is returned is that text without
    the white space at its ends, and nothing but the log has changed. *)
Theorem TranscribeAudio_returns (audio_path : string) (s : State) (t : string) (s' : State) :
  TranscribeAudio w audio_path s = (ok t, s') ->
  exists audio_data transcription_text,
    files s !! audio_path = Some (File audio_data)
    /\ len audio_data <> 0
    /\ api_key_set w = true
    /\ transcriptions_create w audio_path audio_data = ok (Some transcription_text)
    /\ truthy transcription_text = true
    /\ t = strip transcription_text
    /\ s' = set_calls (Transcription audio_path :: calls s) s.
Proof.
  unfold TranscribeAudio, bind, get_state. simpl.
  destruct (files s !! audio_path) as [[data | ] | ]; [ | discriminate | discriminate ].
  destruct (len data =? 0) eqn:Hsize; [ discriminate | ].
  apply Nat.eqb_neq in Hsize.
  unfold catch.
  match goal with
  | |- context [match ?m s with _ => _ end] => destruct (m s) as [[e0 | t0] s0] eqn:Hbody
  end.
  { destruct (is_FileNotFoundError e0); [ discriminate | ].
    destruct (is_GroqError e0); discriminate. }
  intros [= <- <-]. revert Hbody.
  destruct (api_key_set w); [ | discriminate ].
  unfold bind, log, modify. simpl.
  destruct (transcriptions_create w audio_path data) as [e1 | [text | ]] eqn:Hcreate;
    [ discriminate | | discriminate ].
  destruct (truthy text) eqn:Htext; [ | discriminate ].
  intros [= <- <-]. exists data, text. repeat split; assumption.
Qed.

End TranscribeAudioFacts.

Lemma TranscribeAudio_raises_witness :
  (exists message details,
     AudioTranscriptionException "Failed to transcribe audio using Groq API"
       (Some "503 Service Unavailable")
     = AudioTranscriptionException message details)
  \/ (transcriptions_create Scenario.deaf Scenario.temp_path "RIFF"
      = raise (AudioTranscriptionException "Failed to transcribe audio using Groq API"
                 (Some "503 Service Unavailable"))
      /\ is_FileNotFoundError
           (AudioTranscriptionException "Failed to transcribe audio using Groq API"
              (Some "503 Service Unavailable")) = true).
Proof.
  eapply (TranscribeAudio_raises Scenario.deaf Scenario.temp_path (Scenario.saved "RIFF")).
  vm_compute. reflexivity.
Defined.

Lemma TranscribeAudio_returns_witness :
  exists audio_data transcription_text,
    files (Scenario.saved "RIFF") !! Scenario.temp_path = Some (File audio_data)
    /\ Text.len audio_data <> 0
    /\ api_key_set Scenario.calm = true
    /\ transcriptions_create Scenario.calm Scenario.temp_path audio_data
       = ok (Some transcription_text)
    /\ Text.truthy transcription_text = true
    /\ "What did you build?" = Text.strip transcription_text
    /\ (TranscribeAudio Scenario.calm Scenario.temp_path (Scenario.saved "RIFF")).2
       = set_calls (Transcription Scenario.temp_path :: calls (Scenario.saved "RIFF"))
           (Scenario.saved "RIFF").
Proof.
  eapply (TranscribeAudio_returns Scenario.calm Scenario.temp_path (Scenario.saved "RIFF")).
  vm_compute. reflexivity.
Defined.

(** ** What [InvokeChat] and its endpoint raise *)

Section ErrorKinds.

Import Text.

Variable w : World.




(** X9.  Every exception of the audio step leaves the step as the failure
    of the operation [audio_processing], and its details are the text of
    the exception that caused it: the one raised when the temporary file
    was created and written, or else the one that [TranscribeAudio] raised
    on the file that was written. *)
Theorem process_audio_raises_audio_processing
  (audio : UploadFile.t) (s : State) (e : exn) (s' : State) :
  process_audio w audio s = (raise e, s') ->
  exists cause,
    e = DatabaseOperationException "audio_processing" (str_exn cause)
    /\ ((save_upload w (upload_suffix audio) (UploadFile.content audio) s).1
        = raise cause
        \/ exists path s0,
             save_upload w (upload_suffix audio) (UploadFile.content audio) s
             = (ok path, s0)
             /\ (TranscribeAudio w path s0).1 = raise cause).
Proof.
  unfold process_audio, attempt, bind.
  destruct (save_upload w (upload_suffix audio) (UploadFile.content audio) s)
    as [[e0 | path] s0].
  { intros [= <- _]. exists e0. split; [ reflexivity | left; reflexivity ]. }
  simpl. unfold finally, catch.
  destruct (TranscribeAudio w path s0) as [[e1 | t] s1] eqn:Htranscribe;
    [ | discriminate ].
  simpl. intros [= <- _]. exists e1. split; [ reflexivity | ].
  right. exists path, s0. rewrite Htranscribe. split; reflexivity.
Qed.


(** X11.  A text of white space only, sent without audio, passes the check of
    the endpoint, is stripped to the empty text and refused by the service:
    the endpoint answers 400 and no collaborator has been called. *)
Theorem invoke_chat_rejects_blank_text
  (email t model : string) (temperature top_p : Q) (s : State) :
  strip t = empty ->
  invoke_chat w email (Some t) None model temperature top_p s
  = (inl (validation_error "Either text or audio input must be provided"), s).
Proof.
  intros Hblank. unfold invoke_chat.
  destruct t as [ | c t']; [ reflexivity | ].
  simpl text_present. simpl negb. simpl andb. cbv iota.
  simpl truthy. cbv iota. rewrite Hblank. reflexivity.
Qed.

End ErrorKinds.


Lemma process_audio_raises_audio_processing_witness :
  exists cause,
    DatabaseOperationException "audio_processing"
      "Failed to transcribe audio using Groq API"
    = DatabaseOperationException "audio_processing" (str_exn cause)
    /\ ((save_upload Scenario.deaf (upload_suffix Scenario.recording)
           (UploadFile.content Scenario.recording) Scenario.store).1
        = raise cause
        \/ exists path s0,
             save_upload Scenario.deaf (upload_suffix Scenario.recording)
               (UploadFile.content Scenario.recording) Scenario.store
             = (ok path, s0)
             /\ (TranscribeAudio Scenario.deaf path s0).1 = raise cause).
Proof.
  eapply (process_audio_raises_audio_processing Scenario.deaf Scenario.recording
            Scenario.store).
  vm_compute. reflexivity.
Defined.


Lemma invoke_chat_rejects_blank_text_witness :
  invoke_chat Scenario.calm "alice@example.com" (Some "   ") None
    Scenario.model_name Scenario.temperature Scenario.top_p Scenario.store
  = (inl (validation_error "Either text or audio input must be provided"),
     Scenario.store).
Proof.
  apply (invoke_chat_rejects_blank_text Scenario.calm "alice@example.com" "   ").
  vm_compute. reflexivity.
Defined.

(** ** What [InvokeChat] does to the store *)

Section StoreFacts.

Import Text.

Variable w : World.

(** X12.  For an address that no user has, [InvokeChat] raises
    [EmailNotFoundException] with the validated address after its first query:
    the tables and the files are as before and neither provider has been
    called. *)
Theorem InvokeChat_unknown_user
  (text : option string) (audio : option UploadFile.t) (email model : string)
  (temperature top_p : Q) (s : State) (validated : string) :
  text_present text || upload_present audio = true ->
  EmailStr w email = Some validated ->
  db_fault w (QueryUser (lower validated) :: calls s) = None ->
  List.find (fun u => String.eqb (User.email u) (lower validated)) (users s) = None ->
  InvokeChat w text audio email model temperature top_p s
  = (raise (EmailNotFoundException validated),
     set_calls (QueryUser (lower validated) :: calls s) s).
Proof.
  intros Hinput Hemail Hfault Hfind.
  assert (Hguard : negb (text_present text) && negb (upload_present audio) = false).
  { destruct (text_present text), (upload_present audio); simpl in *; congruence. }
  assert (Hresume : GetResumeDetails w validated s
                    = (raise (EmailNotFoundException validated),
                       set_calls (QueryUser (lower validated) :: calls s) s)).
  { unfold GetResumeDetails, query_user, db_call, log, modify, get_state, ret,
      throw, catch, bind.
    simpl. rewrite Hfault. simpl. rewrite Hfind. reflexivity. }
  assert (Hanswer : answer w text audio email model temperature top_p s
                    = (raise (EmailNotFoundException validated),
                       set_calls (QueryUser (lower validated) :: calls s) s)).
  { unfold answer, UserRequestModel. rewrite Hemail.
    rewrite (bind_ok _ _ s validated s eq_refl).
    apply bind_raise. exact Hresume. }
  unfold InvokeChat, InvokeChat_try. rewrite Hguard.
  rewrite (catch_raise _ _ _ _ _ (bind_raise _ _ _ _ _ Hanswer)).
  reflexivity.
Qed.

End StoreFacts.

Lemma InvokeChat_unknown_user_witness :
  InvokeChat Scenario.calm (Some "Hello") None "Bob@Example.com" Scenario.model_name
    Scenario.temperature Scenario.top_p Scenario.store
  = (raise (EmailNotFoundException "Bob@Example.com"),
     set_calls (QueryUser "bob@example.com" :: calls Scenario.store) Scenario.store).
Proof.
  apply (InvokeChat_unknown_user Scenario.calm (Some "Hello") None "Bob@Example.com").
  - reflexivity.
  - vm_compute. reflexivity.
  - reflexivity.
  - vm_compute. reflexivity.
Defined.

Section PreservesFacts.

Context {P : Type} (proj : State -> P).

Lemma preserves_ret {A : Type} (a : A) : preserves proj (ret a).
Proof. intros s. reflexivity. Qed.

Lemma preserves_throw {A : Type} (e : exn) : preserves proj (@throw A e).
Proof. intros s. reflexivity. Qed.

Lemma preserves_return {A : Type} (r : result A) : preserves proj (fun s => (r, s)).
Proof. intros s. reflexivity. Qed.

Lemma preserves_get_state : preserves proj get_state.
Proof. intros s. reflexivity. Qed.

Lemma preserves_modify (f : State -> State) :
  (forall s, proj (f s) = proj s) -> preserves proj (modify f).
Proof. intros Hf s. apply Hf. Qed.

Lemma preserves_bind {A B : Type} (m : M A) (f : A -> M B) :
  preserves proj m -> (forall a, preserves proj (f a)) -> preserves proj (bind m f).
Proof.
  intros Hm Hf s. unfold bind. specialize (Hm s).
  destruct (m s) as [[e | a] s1]; simpl in *; [ exact Hm | ].
  rewrite Hf. exact Hm.
Qed.

Lemma preserves_catch {A : Type} (m : M A) (h : exn -> M A) :
  preserves proj m -> (forall e, preserves proj (h e)) -> preserves proj (catch m h).
Proof.
  intros Hm Hh s. unfold catch. specialize (Hm s).
  destruct (m s) as [[e | a] s1]; simpl in *; [ | exact Hm ].
  rewrite Hh. exact Hm.
Qed.

Lemma preserves_attempt {A : Type} (m : M A) : preserves proj m -> preserves proj (attempt m).
Proof.
  intros Hm s. unfold attempt. specialize (Hm s).
  destruct (m s) as [r s1]. exact Hm.
Qed.

Lemma preserves_finally {A : Type} (m : M A) (f : State -> State) :
  preserves proj m -> (forall s, proj (f s) = proj s) -> preserves proj (finally m f).
Proof.
  intros Hm Hf s. unfold finally. specialize (Hm s).
  destruct (m s) as [r s1]. simpl in *. rewrite Hf. exact Hm.
Qed.

End PreservesFacts.

(** Splits a computation that only reads the part in question, or only
    writes other parts. *)
Ltac kept :=
  repeat first
    [ progress intros
    | progress cbv beta zeta
    | apply preserves_ret | apply preserves_throw | apply preserves_get_state
    | apply preserves_return
    | apply preserves_modify; reflexivity
    | apply preserves_bind | apply preserves_catch | apply preserves_attempt
    | match goal with
      | |- preserves _ (match ?x with _ => _ end) => destruct x
      end
    | assumption ].

Section StoreKept.

Import Text.

Variable w : World.

Lemma clean_up_store path s : store_of (clean_up w path s) = store_of s.
Proof.
  unfold clean_up. destruct (truthy path); [ | reflexivity ].
  destruct (files s !! path); [ | reflexivity ].
  destruct (unlink_fault w path); reflexivity.
Qed.

Lemma preserves_store_process_audio audio : preserves store_of (process_audio w audio).
Proof.
  unfold process_audio. apply preserves_bind.
  - apply preserves_attempt. unfold save_upload. kept.
  - intros [e | path]; [ kept | ].
    apply preserves_finally; [ | apply clean_up_store ].
    unfold TranscribeAudio. kept.
Qed.

Lemma preserves_store_answer text audio email model temperature top_p :
  preserves store_of (answer w text audio email model temperature top_p).
Proof.
  unfold answer.
  apply preserves_bind; [ unfold UserRequestModel; kept | intros user_request ].
  apply preserves_bind; [ unfold GetResumeDetails; kept | intros [resumes user_id] ].
  apply preserves_bind;
    [ destruct audio; [ apply preserves_store_process_audio | kept ] | intros transcribed ].
  apply preserves_bind; [ unfold combine_inputs; kept | intros input ].
  apply preserves_bind; [ unfold fetch_history; kept | intros [db_user history] ].
  apply preserves_bind; [ unfold invoke, Llm; kept | kept ].
Qed.

End StoreKept.

Section Persistence.

Import Text.

Variable w : World.

(** The three ways in which the saving of the turns ends: nothing is
    stored and the session is empty; both turns are stored by a commit
    that went through; or the rollback of the handler raised, nothing is
    stored and the exception of the rollback leaves the block. *)
Lemma save_conversation_store db_user input result s1 r s2 :
  pending s1 = [] ->
  save_conversation w db_user input result s1 = (r, s2) ->
  users s2 = users s1
  /\ ((r = ok tt /\ pending s2 = [] /\ chat_memory s2 = chat_memory s1)
      \/ (exists u,
            db_user = Bound (Some u)
            /\ db_fault w (Commit :: calls s1) = None
            /\ r = ok tt
            /\ pending s2 = []
            /\ chat_memory s2
               = chat_memory s1
                 ++ inserted w (length (chat_memory s1)) (new_turns u input result))
      \/ (exists log e,
            db_fault w (Rollback :: log) = Some e
            /\ calls s2 = Rollback :: log
            /\ r = raise e
            /\ chat_memory s2 = chat_memory s1)).
Proof.
  intros Hpending.
  unfold save_conversation, catch, db_add, db_commit, db_rollback, db_call,
    log, modify, get_state, ret, throw, bind.
  destruct db_user as [ | [u | ]]; simpl.
  - destruct (db_fault w (Rollback :: calls s1)) eqn:Hrollback; simpl;
      intros [= <- <-]; simpl; (split; [ reflexivity | ]).
    + right. right. eauto 10.
    + left. auto.
  - destruct (db_fault w (Commit :: calls s1)) eqn:Hfault; simpl.
    + destruct (db_fault w (Rollback :: Commit :: calls s1)) eqn:Hrollback; simpl;
        intros [= <- <-]; simpl; (split; [ reflexivity | ]).
      * right. right. eauto 10.
      * left. auto.
    + intros [= <- <-]; simpl. split; [ reflexivity | ].
      right. left. exists u. rewrite Hpending. simpl. auto 10.
  - intros [= <- <-]. split; [ reflexivity | ]. left. auto.
Qed.

(** X13.  The service only appends to the history.  The users are never
    touched.  The table of turns is afterwards as it was, or the chain has
    answered, the reply is returned and the table is longer by exactly the
    two turns of this request: the input that the chain was given, for the
    user found by the history step, and the text of this reply.  A request
    that starts with an empty session ends with one, unless a rollback has
    failed: then the rollback is the last call of the log and its
    exception leaves [InvokeChat] through the handlers. *)
Theorem InvokeChat_appends_two_turns_or_none
  (text : option string) (audio : option UploadFile.t) (email model : string)
  (temperature top_p : Q) (s : State) (r : result Response.t) (s' : State) :
  pending s = [] ->
  InvokeChat w text audio email model temperature top_p s = (r, s') ->
  users s' = users s
  /\ (chat_memory s' = chat_memory s
      \/ exists a s1 u,
           answer w text audio email model temperature top_p s = (ok a, s1)
           /\ Locals.db_user a = Bound (Some u)
           /\ r = ok (response_of a)
           /\ chat_memory s'
              = chat_memory s
                ++ inserted w (length (chat_memory s))
                     (new_turns u (Locals.input_text a) (Locals.result a)))
  /\ (pending s' = []
      \/ exists log e,
           db_fault w (Rollback :: log) = Some e
           /\ calls s' = Rollback :: log
           /\ r = raise (chat_invocation_error e)).
Proof.
  intros Hpending. unfold InvokeChat.
  destruct (negb (text_present text) && negb (upload_present audio)).
  { intros [= _ <-]. auto. }
  unfold catch, InvokeChat_try, bind.
  pose proof (preserves_store_answer w text audio email model temperature top_p s) as Hkept.
  destruct (answer w text audio email model temperature top_p s) as [[e | a] s1] eqn:Hanswer.
  - unfold store_of in Hkept. simpl in Hkept. injection Hkept as Hu Hm Hp.
    destruct (is_EmailNotFoundException e || is_ValueError e);
      [ | destruct (is_BaseAppException e) ];
      intros [= _ <-]; rewrite Hu, Hm, Hp; auto.
  - unfold store_of in Hkept. simpl in Hkept. injection Hkept as Hu Hm Hp.
    destruct (save_conversation w (Locals.db_user a) (Locals.input_text a)
                (Locals.result a) s1) as [r2 s2] eqn:Hsave.
    destruct (save_conversation_store _ _ _ _ _ _ (eq_trans Hp Hpending) Hsave)
      as (Hu2 & [(-> & Hp2 & Hrows) | [(u & Hbound & _ & -> & Hp2 & Hrows)
                                      | (log & e & Hfault & Hcalls & -> & Hrows)]]).
    + intros [= _ <-]. rewrite Hu2, Hu, Hrows, Hm. auto.
    + intros [= <- <-]. rewrite Hu2, Hu. split; [ reflexivity | ].
      split; [ | left; exact Hp2 ].
      right. exists a, s1, u. rewrite Hrows, Hm. auto.
    + simpl.
      match goal with
      | |- ?run = _ -> _ =>
          replace run with (@raise Response.t (chat_invocation_error e), s2)
      end.
      2:{ unfold chat_invocation_error, throw.
          destruct (is_EmailNotFoundException e || is_ValueError e);
            [ reflexivity | ].
          destruct (is_BaseAppException e); reflexivity. }
      intros [= <- <-]. rewrite Hu2, Hu, Hrows, Hm.
      split; [ reflexivity | ]. split; [ left; reflexivity | ].
      right. exists log, e. auto.
Qed.

End Persistence.

Lemma InvokeChat_appends_two_turns_or_none_witness :
  users (InvokeChat Scenario.calm (Some "What did you build?") None
           "alice@example.com" Scenario.model_name Scenario.temperature
           Scenario.top_p Scenario.store).2
  = users Scenario.store.
Proof.
  eapply (InvokeChat_appends_two_turns_or_none Scenario.calm
            (Some "What did you build?") None "alice@example.com"
            Scenario.model_name Scenario.temperature Scenario.top_p Scenario.store).
  - reflexivity.
  - apply surjective_pairing.
Defined.

Section SavedTurns.

Import Text.

Variable w : World.

(** What the chain has answered to: an input that is not empty, and a
    reply that satisfies the model. *)
Lemma answer_inv text audio email model temperature top_p s a s1 :
  answer w text audio email model temperature top_p s = (ok a, s1) ->
  truthy (Locals.input_text a) = true /\ long_enough (Locals.result a).
Proof.
  unfold answer. intros H.
  apply bind_ok_inv in H as (user_request & s2 & _ & H).
  apply bind_ok_inv in H as ([resumes user_id] & s3 & _ & H).
  apply bind_ok_inv in H as (transcribed & s4 & _ & H).
  apply bind_ok_inv in H as (input & s5 & Hin & H).
  apply bind_ok_inv in H as ([db_user history] & s6 & _ & H).
  apply bind_ok_inv in H as (result & s7 & Hinvoke & H).
  injection H as <- _. simpl. split.
  - unfold combine_inputs in Hin.
    match type of Hin with
    | (if negb (truthy ?i) then _ else _) _ = _ =>
        destruct (truthy i) eqn:Hi; [ | discriminate ]
    end.
    simpl in Hin. injection Hin as <- _. exact Hi.
  - unfold invoke in Hinvoke.
    apply bind_ok_inv in Hinvoke as (completion & s8 & _ & Hextract).
    injection Hextract as Hextract _.
    eapply extract_long_enough. exact Hextract.
Qed.

Lemma long_enough_truthy m : long_enough m -> truthy (assistant_text m) = true.
Proof.
  unfold long_enough, assistant_text. intros H.
  destruct (truthy (code m)); [ reflexivity | ].
  destruct (explanation m); [ vm_compute in H; lia | reflexivity ].
Qed.

(** X14.  When the chain has answered, the user is found again and the commit
    goes through, the table ends with exactly the two turns of the request,
    the input of the user and then the text of the assistant, both without
    resume details and both with a message that is not empty, so that the
    history of a later request leaves neither out. *)
Theorem InvokeChat_saves_both_turns
  (text : option string) (audio : option UploadFile.t) (email model : string)
  (temperature top_p : Q) (s : State) (a : Locals.t) (s1 : State) (u : User.t) :
  pending s = [] ->
  answer w text audio email model temperature top_p s = (ok a, s1) ->
  Locals.db_user a = Bound (Some u) ->
  db_fault w (Commit :: calls s1) = None ->
  chat_memory (InvokeChat w text audio email model temperature top_p s).2
  = chat_memory s
    ++ inserted w (length (chat_memory s))
         (new_turns u (Locals.input_text a) (Locals.result a))
  /\ Forall (fun m => truthy (ChatMemory.message m) = true
                      /\ ChatMemory.resume_details m = None
                      /\ ChatMemory.user_id m = User.id u)
       (inserted w (length (chat_memory s))
          (new_turns u (Locals.input_text a) (Locals.result a))).
Proof.
  intros Hpending Hanswer Hbound Hfault.
  pose proof (preserves_store_answer w text audio email model temperature top_p s) as Hkept.
  rewrite Hanswer in Hkept. unfold store_of in Hkept. simpl in Hkept.
  injection Hkept as Hu Hm Hp.
  destruct (answer_inv _ _ _ _ _ _ _ _ _ Hanswer) as [Hinput Hlong].
  split.
  - assert (Hguard : negb (text_present text) && negb (upload_present audio) = false).
    { destruct audio as [audio' | ]; [ apply andb_false_r | ].
      rewrite (answer_needs_input _ _ _ _ _ _ _ _ _ Hanswer). reflexivity. }
    unfold InvokeChat. rewrite Hguard.
    unfold catch, InvokeChat_try. rewrite (bind_ok _ _ _ _ _ Hanswer).
    rewrite Hbound.
    unfold save_conversation, catch, db_add, db_commit, db_rollback, db_call,
      log, modify, get_state, ret, throw, bind.
    simpl. rewrite Hfault. simpl. rewrite Hp, Hpending, Hm. reflexivity.
  - simpl. repeat constructor; simpl; try assumption.
    apply long_enough_truthy. exact Hlong.
Qed.

(** X15.  A request without audio leaves the files alone. *)
Theorem InvokeChat_text_only_keeps_files
  (text : option string) (email model : string) (temperature top_p : Q) (s : State) :
  files (InvokeChat w text None email model temperature top_p s).2 = files s.
Proof.
  assert (H : at_files (files s) (InvokeChat w text None email model temperature top_p)).
  { unfold InvokeChat.
    destruct (negb (text_present text) && negb (upload_present None));
      [ files_kept | ].
    apply at_files_catch; [ | files_kept ].
    unfold InvokeChat_try.
    apply at_files_bind; [ | intros a; apply at_files_bind;
                             [ apply at_files_save_conversation | files_kept ] ].
    unfold answer.
    apply at_files_bind; [ unfold UserRequestModel; files_kept | intros user_request ].
    apply at_files_bind; [ apply at_files_GetResumeDetails | intros [resumes user_id] ].
    apply at_files_bind; [ files_kept | intros transcribed ].
    apply at_files_bind; [ apply at_files_combine_inputs | intros input ].
    apply at_files_bind; [ apply at_files_fetch_history | intros [db_user history] ].
    apply at_files_bind; [ apply at_files_invoke | files_kept ]. }
  apply H. reflexivity.
Qed.

End SavedTurns.

Lemma InvokeChat_saves_both_turns_witness :
  length
    (chat_memory
       (InvokeChat Scenario.calm (Some "What did you build?") None
          "alice@example.com" Scenario.model_name Scenario.temperature
          Scenario.top_p Scenario.store).2)
  = 5.
Proof.
  edestruct (InvokeChat_saves_both_turns Scenario.calm (Some "What did you build?")
               None "alice@example.com" Scenario.model_name Scenario.temperature
               Scenario.top_p Scenario.store) as [Hrows _].
  - reflexivity.
  - vm_compute. reflexivity.
  - reflexivity.
  - reflexivity.
  - rewrite Hrows. reflexivity.
Defined.

(** ** The resume records and the users *)

Section Records.

Import Text.

Variable w : World.

Hypothesis Hdb : db_raises_library_errors w.

#[local] Existing Instance newer_first_total.
#[local] Existing Instance newer_first_transitive.

Lemma db_fault_not_EmailNotFound log e :
  db_fault w log = Some e -> is_EmailNotFoundException e = false.
Proof.
  intros H. apply Hdb in H. destruct e; simpl in *; congruence.
Qed.

(** X16.  [GetResumeDetails] reads and never writes. When it returns, the user
    whose stored address is the lower-cased one exists, the id returned is
    that user's, and the records are all resume records of the user and
    nothing else, the newest first. When it raises, the user is unknown and
    the exception says so, or a query failed and the exception is the failure
    of the operation [resume_retrieval]. *)
Theorem GetResumeDetails_reads_resume_records
  (user_email : string) (s : State) (r : result (list ChatMemory.t * string)) (s' : State) :
  GetResumeDetails w user_email s = (r, s') ->
  store_of s' = store_of s
  /\ files s' = files s
  /\ match r with
     | inr (resume_records, user_id) =>
         (exists u, List.find (fun u => String.eqb (User.email u) (lower user_email)) (users s)
                    = Some u
                    /\ user_id = User.id u)
         /\ resume_records ≡ₚ filter (is_resume_of user_id) (chat_memory s)
         /\ Sorted newer_first resume_records
     | inl e =>
         (e = EmailNotFoundException user_email
          /\ List.find (fun u => String.eqb (User.email u) (lower user_email)) (users s)
             = None)
         \/ exists cause, e = DatabaseOperationException "resume_retrieval" (str_exn cause)
     end.
Proof.
  unfold GetResumeDetails, query_user, query_resume, db_call, log, modify,
    get_state, ret, throw, catch, bind.
  simpl.
  destruct (db_fault w (QueryUser (lower user_email) :: calls s)) as [e0 | ] eqn:H0; simpl.
  { rewrite (db_fault_not_EmailNotFound _ _ H0). intros [= <- <-].
    split; [ reflexivity | ]. split; [ reflexivity | ]. right. eauto. }
  destruct (List.find _ (users s)) as [u | ] eqn:Hfind; simpl.
  - match goal with
    | |- context [db_fault w (QueryResume ?a :: ?l)] =>
        destruct (db_fault w (QueryResume a :: l)) as [e1 | ] eqn:H1
    end; simpl.
    { rewrite (db_fault_not_EmailNotFound _ _ H1). intros [= <- <-].
      split; [ reflexivity | ]. split; [ reflexivity | ]. right. eauto. }
    intros [= <- <-].
    split; [ reflexivity | ]. split; [ reflexivity | ].
    split; [ eauto | ].
    split; [ apply merge_sort_Permutation | apply Sorted_merge_sort; apply _ ].
  - intros [= <- <-].
    split; [ reflexivity | ]. split; [ reflexivity | ]. left. auto.
Qed.

End Records.

Lemma GetResumeDetails_reads_resume_records_witness :
  store_of (GetResumeDetails Scenario.calm "Alice@Example.com" Cases.shared).2
  = store_of Cases.shared.
Proof.
  eapply (GetResumeDetails_reads_resume_records Scenario.calm).
  - intros log e. vm_compute. discriminate.
  - apply surjective_pairing.
Defined.

Section Users.

Import Text.

Variable w : World.

Hypothesis Hdb : db_raises_library_errors w.

(** X17.  [GetUser] makes one query and changes nothing else. The user it
    returns is a user of the table whose stored address is the lower-cased
    one; when it raises, no user has that address and the exception says so,
    or the query failed and the exception is the failure of the operation
    [user_retrieval]. *)
Theorem GetUser_finds_by_lowercase_address
  (user_email : string) (s : State) (r : result User.t) (s' : State) :
  GetUser w user_email s = (r, s') ->
  s' = set_calls (QueryUser (lower user_email) :: calls s) s
  /\ match r with
     | inr u => In u (users s) /\ User.email u = lower user_email
     | inl e =>
         (e = EmailNotFoundException user_email
          /\ forall u, In u (users s) -> User.email u <> lower user_email)
         \/ exists cause, e = DatabaseOperationException "user_retrieval" (str_exn cause)
     end.
Proof.
  unfold GetUser, query_user, db_call, log, modify, get_state, ret, throw, catch, bind.
  simpl.
  destruct (db_fault w (QueryUser (lower user_email) :: calls s)) as [e0 | ] eqn:H0; simpl.
  { rewrite (db_fault_not_EmailNotFound w Hdb _ _ H0). intros [= <- <-].
    split; [ reflexivity | ]. right. eauto. }
  destruct (List.find _ (users s)) as [u | ] eqn:Hfind; simpl; intros [= <- <-];
    (split; [ reflexivity | ]).
  - apply List.find_some in Hfind as [Hin Heq].
    apply String.eqb_eq in Heq. auto.
  - left. split; [ reflexivity | ]. intros u Hin Heq.
    pose proof (List.find_none _ _ Hfind u Hin) as Hno. simpl in Hno.
    apply String.eqb_neq in Hno. contradiction.
Qed.

(** X18.  When [Delete] raises, nothing has been deleted: the users and
    the turns are as before and the session holds nothing.  The exception
    is [EmailNotFoundException] for an unknown address.  Otherwise a call
    of the database has failed and the rollback is the last call of the
    log: when the rollback goes through, the exception is the failure of
    the operation [user_deletion] with the text of the failed call as
    details; when the rollback fails as well, its own exception leaves
    [Delete] as it is. *)
Theorem Delete_raises_without_deleting
  (user_email : string) (s : State) (e : exn) (s' : State) :
  pending s = [] ->
  Delete w user_email s = (raise e, s') ->
  users s' = users s
  /\ chat_memory s' = chat_memory s
  /\ pending s' = []
  /\ ((e = EmailNotFoundException user_email
       /\ forall u, In u (users s) -> User.email u <> lower user_email)
      \/ exists cause log,
           db_fault w log = Some cause
           /\ calls s' = Rollback :: log
           /\ e = match db_fault w (Rollback :: log) with
                  | None => DatabaseOperationException "user_deletion" (str_exn cause)
                  | Some failure => failure
                  end).
Proof.
  intros Hpending.
  assert (Hrolled : forall cause seen s0,
            db_fault w seen = Some cause ->
            users s0 = users s -> chat_memory s0 = chat_memory s ->
            pending s0 = [] -> calls s0 = seen ->
            (db_rollback w ;;;
             throw (DatabaseOperationException "user_deletion" (str_exn cause))) s0
            = (raise e, s') :> result Deleted.t * State ->
            users s' = users s
            /\ chat_memory s' = chat_memory s
            /\ pending s' = []
            /\ ((e = EmailNotFoundException user_email
                 /\ forall u, In u (users s) -> User.email u <> lower user_email)
                \/ exists cause log,
                     db_fault w log = Some cause
                     /\ calls s' = Rollback :: log
                     /\ e = match db_fault w (Rollback :: log) with
                            | None =>
                                DatabaseOperationException "user_deletion" (str_exn cause)
                            | Some failure => failure
                            end)).
  { intros cause seen s0 Hcause Hu Hm Hp Hc.
    unfold db_rollback, db_call, log, modify, get_state, ret, throw, bind.
    simpl. rewrite Hc.
    destruct (db_fault w (Rollback :: seen)) as [failure | ] eqn:Hrollback; simpl;
      intros [= <- <-]; simpl; rewrite ?Hc;
      (split; [ exact Hu | ]); (split; [ exact Hm | ]);
      (split; [ first [ exact Hp | reflexivity ] | ]);
      right; exists cause, seen; rewrite Hrollback; auto. }
  unfold Delete, check_email_exists, db_delete_commit, query_user.
  unfold catch at 1.
  match goal with
  | |- (let (_, _) := ?body s in _) = _ -> _ => destruct (body s) as [[e0 | d] s0] eqn:Hbody
  end; [ | discriminate ].
  revert Hbody.
  unfold db_call, log, modify, get_state, ret, throw, catch, bind.
  simpl.
  destruct (db_fault w (QueryUser (lower user_email) :: calls s)) as [e1 | ] eqn:H1; simpl.
  { intros [= <- <-]. rewrite (db_fault_not_EmailNotFound w Hdb _ _ H1).
    apply (Hrolled e1 _ _ H1); reflexivity || exact Hpending. }
  destruct (List.find _ (users s)) as [u | ] eqn:Hfind; simpl.
  - match goal with
    | |- context [db_fault w (QueryUser ?a :: QueryUser ?b :: ?l)] =>
        destruct (db_fault w (QueryUser a :: QueryUser b :: l)) as [e2 | ] eqn:H2
    end; simpl.
    { intros [= <- <-]. rewrite (db_fault_not_EmailNotFound w Hdb _ _ H2).
      apply (Hrolled e2 _ _ H2); reflexivity || exact Hpending. }
    rewrite Hfind. simpl.
    match goal with
    | |- context [db_fault w (Commit :: ?l)] =>
        destruct (db_fault w (Commit :: l)) as [e3 | ] eqn:H3
    end; simpl; [ | discriminate ].
    intros [= <- <-]. rewrite (db_fault_not_EmailNotFound w Hdb _ _ H3).
    apply (Hrolled e3 _ _ H3); reflexivity || exact Hpending.
  - intros [= <- <-]. simpl. intros [= <- <-]. simpl.
    repeat split; try assumption.
    left. split; [ reflexivity | ]. intros u Hin Heq.
    pose proof (List.find_none _ _ Hfind u Hin) as Hno. simpl in Hno.
    apply String.eqb_neq in Hno. contradiction.
Qed.

End Users.

Lemma GetUser_finds_by_lowercase_address_witness :
  (GetUser Scenario.calm "BOB@example.com" Cases.shared).2
  = set_calls (QueryUser "bob@example.com" :: calls Cases.shared) Cases.shared.
Proof.
  edestruct (GetUser_finds_by_lowercase_address Scenario.calm) as [Hstate _].
  - intros log e. vm_compute. discriminate.
  - apply (surjective_pairing (GetUser Scenario.calm "BOB@example.com" Cases.shared)).
  - rewrite Hstate. reflexivity.
Defined.

Lemma Delete_raises_without_deleting_witness :
  users (Delete Scenario.readonly "bob@example.com" Cases.shared).2
  = users Cases.shared.
Proof.
  assert (Hdb : db_raises_library_errors Scenario.readonly).
  { intros log e. unfold Scenario.readonly. simpl.
    destruct log as [ | c log]; [ discriminate | ].
    destruct c; try discriminate. intros [= <-]. reflexivity. }
  eapply (Delete_raises_without_deleting Scenario.readonly Hdb "bob@example.com"
            Cases.shared).
  - reflexivity.
  - vm_compute. reflexivity.
Defined.

Section Cascade.

Import Text.

Variable w : World.

(** X19.  When no call of the database fails, [Delete] of a known address
    removes the user and, with the user, every turn and resume record of that
    user; the other users and every row of theirs stay. *)
Theorem Delete_cascades
  (user_email : string) (s : State) (u : User.t) :
  (forall log, db_fault w log = None) ->
  pending s = [] ->
  List.find (fun u => String.eqb (User.email u) (lower user_email)) (users s) = Some u ->
  exists s',
    Delete w user_email s
    = (ok {| Deleted.message := "User successfully deleted";
             Deleted.deleted_email := user_email;
             Deleted.deleted_user_id := User.id u |}, s')
    /\ (forall u', In u' (users s') <-> In u' (users s) /\ User.id u' <> User.id u)
    /\ (forall m, In m (chat_memory s')
                  <-> In m (chat_memory s) /\ ChatMemory.user_id m <> User.id u).
Proof.
  intros Hfault Hpending Hfind.
  unfold Delete, check_email_exists, db_delete_commit, db_rollback, query_user,
    db_call, log, modify, get_state, ret, throw, catch, bind.
  simpl. rewrite !Hfault. simpl. rewrite Hfind. simpl.
  rewrite !Hfault. simpl. rewrite Hfind. simpl. rewrite !Hfault. simpl.
  eexists. split; [ reflexivity | ]. simpl. rewrite Hpending. simpl.
  rewrite app_nil_r.
  split; intros x; rewrite List.filter_In;
    (split; intros [Hin Hne]; (split; [ exact Hin | ]));
    first [ apply negb_true_iff in Hne; apply String.eqb_neq in Hne; exact Hne
          | apply negb_true_iff; apply String.eqb_neq; exact Hne ].
Qed.

End Cascade.

Lemma Delete_cascades_witness :
  exists s',
    (Delete Scenario.calm "Alice@example.com" Cases.shared).2 = s'
    /\ (forall m, In m (chat_memory s')
                  <-> In m (chat_memory Cases.shared)
                      /\ ChatMemory.user_id m <> User.id Scenario.alice).
Proof.
  destruct (Delete_cascades Scenario.calm "Alice@example.com" Cases.shared Scenario.alice)
    as (s' & Hrun & _ & Hrows).
  - intros log. reflexivity.
  - reflexivity.
  - vm_compute. reflexivity.
  - exists s'. rewrite Hrun. split; [ reflexivity | exact Hrows ].
Defined.

(** ** The prompts *)

Section Prompts.

Import Text.

Lemma chars_append a b : chars (a +:+ b) = chars a ++ chars b.
Proof.
  unfold chars. induction a as [ | c a IH]; [ reflexivity | ].
  simpl. rewrite IH. reflexivity.
Qed.

Lemma prefix_chars_here p l : prefix_chars p (p ++ l) = true.
Proof.
  induction p as [ | c p IH]; [ reflexivity | ].
  simpl. rewrite Ascii.eqb_refl. exact IH.
Qed.

Lemma contains_chars_prefix p l : prefix_chars p l = true -> contains_chars p l = true.
Proof. intros H. destruct l; simpl; rewrite H; reflexivity. Qed.

Lemma contains_chars_inside p a b : contains_chars p (a ++ p ++ b) = true.
Proof.
  induction a as [ | c a IH].
  - change ([] ++ p ++ b) with (p ++ b).
    apply contains_chars_prefix. apply prefix_chars_here.
  - simpl. rewrite IH. apply orb_true_r.
Qed.

Lemma contains_inside p a b : contains p (a +:+ p +:+ b) = true.
Proof.
  unfold contains. rewrite !chars_append. apply contains_chars_inside.
Qed.

Lemma append_empty_r a : a +:+ empty = a.
Proof.
  induction a as [ | c a IH]; [ reflexivity | ].
  change (String c (a +:+ empty) = String c a). rewrite IH. reflexivity.
Qed.

Lemma append_assoc a b c : (a +:+ b) +:+ c = a +:+ b +:+ c.
Proof.
  induction a as [ | x a IH]; [ reflexivity | ].
  change (String x ((a +:+ b) +:+ c) = String x (a +:+ b +:+ c)).
  rewrite IH. reflexivity.
Qed.

Lemma join_holds sep parts h :
  In h parts -> exists a b, join sep parts = a +:+ h +:+ b.
Proof.
  induction parts as [ | p parts IH]; [ intros [] | ].
  intros [-> | Hin].
  - destruct parts as [ | p' parts].
    + exists empty, empty.
      change (join sep [h]) with h.
      change (empty +:+ h +:+ empty) with (h +:+ empty).
      rewrite append_empty_r. reflexivity.
    + exists empty, (sep +:+ join sep (p' :: parts)). reflexivity.
  - destruct (IH Hin) as (a & b & Hab).
    destruct parts as [ | p' parts]; [ destruct Hin | ].
    exists (p +:+ sep +:+ a), b.
    change (join sep (p :: p' :: parts)) with (p +:+ sep +:+ join sep (p' :: parts)).
    rewrite Hab, !append_assoc. reflexivity.
Qed.

(** X20.  Both prompts hold what they are given, letter for letter: the system
    prompt the resume details, the user prompt the input and every message of
    the history, and in place of an empty history the notice that there is no
    previous conversation. *)
Theorem GetChain_prompts_hold_the_request
  (ResumeDetails input : string) (history : list string)
  (model : string) (temperature top_p : Q) :
  contains ResumeDetails
    (LlmRunnable.system_prompt_text
       (GetChain ResumeDetails input history model temperature top_p)) = true
  /\ contains input
       (LlmRunnable.user_prompt_text
          (GetChain ResumeDetails input history model temperature top_p)) = true
  /\ Forall (fun h =>
               contains h
                 (LlmRunnable.user_prompt_text
                    (GetChain ResumeDetails input history model temperature top_p))
               = true) history
  /\ contains "No previous conversation."
       (LlmRunnable.user_prompt_text
          (GetChain ResumeDetails input [] model temperature top_p)) = true.
Proof.
  unfold GetChain. simpl.
  unfold PromptLibrary.SystemPrompt_format, PromptLibrary.InvokePrompt_format.
  split; [ apply contains_inside | ].
  split.
  { rewrite <- (append_assoc PromptLibrary.InvokePrompt_head).
    rewrite <- (append_assoc (PromptLibrary.InvokePrompt_head +:+ _)).
    apply contains_inside. }
  split; [ | apply contains_inside ].
  apply List.Forall_forall. intros h Hin.
  destruct history as [ | h0 history]; [ destruct Hin | ].
  destruct (join_holds newline (h0 :: history) h Hin) as (a & b & Hab).
  rewrite Hab.
  rewrite !append_assoc.
  rewrite <- (append_assoc PromptLibrary.InvokePrompt_head a).
  apply contains_inside.
Qed.

End Prompts.

(** ** Requests without usable input, and completions without text *)

Section BlankInput.

Import Text.

Variable w : World.

(** X21.  A request without text whose audio is transcribed to nothing but
    white space is refused with [ValueError] once the audio step is over: the
    temporary file is cleaned up as after every transcription and the model is
    not called. *)
Theorem InvokeChat_refuses_blank_transcript
  (text : option string) (audio : UploadFile.t) (email model : string)
  (temperature top_p : Q) (s : State)
  user_request found s1 transcribed s2 :
  text_present text = false ->
  UserRequestModel w email s = (ok user_request, s) ->
  GetResumeDetails w user_request s = (ok found, s1) ->
  process_audio w audio s1 = (ok transcribed, s2) ->
  strip transcribed = empty ->
  InvokeChat w text (Some audio) email model temperature top_p s
  = (raise (ValueError "No text input available after processing audio"), s2).
Proof.
  intros Htext Hreq Hfound Haudio Hblank.
  assert (Hcombine : combine_inputs text transcribed s2
                     = (raise (ValueError "No text input available after processing audio"),
                        s2)).
  { unfold combine_inputs.
    assert (Hin : match text with
                  | Some t => if truthy t then strip t else empty
                  | None => empty
                  end = empty).
    { destruct text as [t | ]; [ | reflexivity ].
      simpl in Htext. rewrite Htext. reflexivity. }
    rewrite Hin. simpl truthy. cbv iota. rewrite Hblank.
    destruct (truthy transcribed); reflexivity. }
  assert (Hanswer : answer w text (Some audio) email model temperature top_p s
                    = (raise (ValueError "No text input available after processing audio"),
                       s2)).
  { unfold answer.
    rewrite (bind_ok _ _ _ _ _ Hreq), (bind_ok _ _ _ _ _ Hfound).
    destruct found as [resume_details_list user_id].
    rewrite (bind_ok _ _ _ _ _ Haudio).
    apply bind_raise. exact Hcombine. }
  unfold InvokeChat, InvokeChat_try. rewrite andb_false_r.
  rewrite (catch_raise _ _ _ _ _ (bind_raise _ _ _ _ _ Hanswer)).
  reflexivity.
Qed.

(** X22.  When the provider answers with a completion whose first choice has
    no content, or an empty one, [LlmRunnable.invoke] raises nothing and
    returns the fixed notice as the reply, whatever the prompts were; the
    model has been called once, without streaming. *)
Theorem invoke_answers_empty_completion
  (self : LlmRunnable.t) (s : State) (completion : Completion.t) :
  api_key_set w = true ->
  (forall params, Completion.stream params = false ->
                  completions_create w params = ok completion) ->
  response_text_of completion = empty ->
  exists prompt,
    invoke w self s = (ok no_response, set_calls (ChatCompletion prompt :: calls s) s).
Proof.
  intros Hkey Hcreate Hempty. unfold invoke, Llm, catch, bind, log, modify.
  rewrite Hkey. simpl. rewrite Hcreate by reflexivity. simpl.
  rewrite Hempty. eexists. reflexivity.
Qed.

End BlankInput.

Lemma InvokeChat_refuses_blank_transcript_witness :
  InvokeChat Cases.mumbling None (Some Scenario.recording) "alice@example.com"
    Scenario.model_name Scenario.temperature Scenario.top_p Scenario.store
  = (raise (ValueError "No text input available after processing audio"),
     (InvokeChat Cases.mumbling None (Some Scenario.recording) "alice@example.com"
        Scenario.model_name Scenario.temperature Scenario.top_p Scenario.store).2).
Proof.
  erewrite (InvokeChat_refuses_blank_transcript Cases.mumbling None Scenario.recording
              "alice@example.com" Scenario.model_name Scenario.temperature
              Scenario.top_p Scenario.store) at 1; cycle 1.
  - reflexivity.
  - vm_compute. reflexivity.
  - vm_compute. reflexivity.
  - vm_compute. reflexivity.
  - vm_compute. reflexivity.
  - vm_compute. reflexivity.
Defined.

Lemma invoke_answers_empty_completion_witness :
  exists prompt,
    invoke Cases.silent
      (GetChain "Python developer" "Are you available?" [] Scenario.model_name
         Scenario.temperature Scenario.top_p) Scenario.store
    = (ok no_response,
       set_calls (ChatCompletion prompt :: calls Scenario.store) Scenario.store).
Proof.
  apply (invoke_answers_empty_completion Cases.silent _ Scenario.store
           {| Completion.choices := [None]; Completion.repr := "ChatCompletion" |}).
  - reflexivity.
  - intros params _. reflexivity.
  - reflexivity.
Defined.

(** ** The calls of the model *)

Section ModelCalls.

Import Text.

Variable w : World.

Lemma bind_preserved {A B P : Type} (proj : State -> P) (m : M A) (f : A -> M B) s r s' :
  preserves proj m ->
  bind m f s = (r, s') ->
  (exists e, r = raise e /\ proj s' = proj s)
  \/ (exists a s0, proj s0 = proj s /\ f a s0 = (r, s')).
Proof.
  intros Hm. unfold bind. specialize (Hm s).
  destruct (m s) as [[e | a] s0]; simpl in Hm.
  - intros [= <- <-]. left. eauto.
  - intros H. right. eauto.
Qed.

Lemma clean_up_model_calls path s : model_calls (clean_up w path s) = model_calls s.
Proof.
  unfold clean_up. destruct (truthy path); [ | reflexivity ].
  destruct (files s !! path); [ | reflexivity ].
  destruct (unlink_fault w path); reflexivity.
Qed.

Lemma preserves_model_calls_process_audio audio :
  preserves model_calls (process_audio w audio).
Proof.
  unfold process_audio. apply preserves_bind.
  - apply preserves_attempt. unfold save_upload. kept.
  - intros [e | path]; [ kept | ].
    apply preserves_finally; [ | apply clean_up_model_calls ].
    unfold TranscribeAudio. kept.
Qed.

Lemma preserves_model_calls_save_conversation db_user input result :
  preserves model_calls (save_conversation w db_user input result).
Proof. unfold save_conversation, db_add, db_commit, db_rollback, db_call. kept. Qed.

Lemma invoke_model_calls self s r s' :
  invoke w self s = (r, s') ->
  match r with
  | inr _ => exists prompt, model_calls s' = ChatCompletion prompt :: model_calls s
  | inl _ =>
      model_calls s' = model_calls s
      \/ exists prompt, model_calls s' = ChatCompletion prompt :: model_calls s
  end.
Proof.
  unfold invoke, Llm, catch, bind, log, modify, throw, ret.
  destruct (negb (api_key_set w)); simpl.
  { intros [= <- <-]. left. reflexivity. }
  match goal with
  | |- context [completions_create w ?p] => destruct (completions_create w p) as [e | c]
  end; simpl.
  - destruct (is_GroqError e); intros [= <- <-]; right; eexists; reflexivity.
  - intros [= <- <-].
    match goal with
    | |- match ?x with _ => _ end => destruct x
    end; [ right | ]; eexists; reflexivity.
Qed.

Lemma answer_model_calls text audio email model temperature top_p s r s' :
  answer w text audio email model temperature top_p s = (r, s') ->
  match r with
  | inr _ => exists prompt, model_calls s' = ChatCompletion prompt :: model_calls s
  | inl _ =>
      model_calls s' = model_calls s
      \/ exists prompt, model_calls s' = ChatCompletion prompt :: model_calls s
  end.
Proof.
  unfold answer. intros H.
  apply (bind_preserved model_calls) in H as [(e & -> & He) | (a1 & s1 & H1 & H)];
    [ left; exact He | | unfold UserRequestModel; kept ].
  apply (bind_preserved model_calls) in H as [(e & -> & He) | ([resumes uid] & s2 & H2 & H)];
    [ left; congruence | | unfold GetResumeDetails; kept ].
  apply (bind_preserved model_calls) in H as [(e & -> & He) | (tr & s3 & H3 & H)];
    [ left; congruence | | destruct audio; [ apply preserves_model_calls_process_audio | kept ] ].
  apply (bind_preserved model_calls) in H as [(e & -> & He) | (input & s4 & H4 & H)];
    [ left; congruence | | unfold combine_inputs; kept ].
  apply (bind_preserved model_calls) in H as [(e & -> & He) | ([db_user history] & s5 & H5 & H)];
    [ left; congruence | | unfold fetch_history; kept ].
  assert (Hs : model_calls s5 = model_calls s) by congruence.
  unfold bind in H.
  match type of H with
  | match ?m s5 with _ => _ end = _ => destruct (m s5) as [[e | result] s6] eqn:Hinvoke
  end; apply invoke_model_calls in Hinvoke; injection H as <- <-; rewrite <- Hs;
    exact Hinvoke.
Qed.

(** X23.  Every reply of [InvokeChat] comes from exactly one call of the
    model, and a request that raises has called the model at most once. *)
Theorem InvokeChat_calls_the_model_once
  (text : option string) (audio : option UploadFile.t) (email model : string)
  (temperature top_p : Q) (s : State) (r : result Response.t) (s' : State) :
  InvokeChat w text audio email model temperature top_p s = (r, s') ->
  match r with
  | inr _ => exists prompt, model_calls s' = ChatCompletion prompt :: model_calls s
  | inl _ =>
      model_calls s' = model_calls s
      \/ exists prompt, model_calls s' = ChatCompletion prompt :: model_calls s
  end.
Proof.
  unfold InvokeChat.
  destruct (negb (text_present text) && negb (upload_present audio)).
  { intros [= <- <-]. left. reflexivity. }
  unfold catch, InvokeChat_try, bind.
  destruct (answer w text audio email model temperature top_p s) as [[e | a] s1] eqn:Hanswer;
    apply answer_model_calls in Hanswer.
  - destruct (is_EmailNotFoundException e || is_ValueError e);
      [ | destruct (is_BaseAppException e) ]; intros [= <- <-]; exact Hanswer.
  - pose proof (preserves_model_calls_save_conversation (Locals.db_user a)
                  (Locals.input_text a) (Locals.result a) s1) as Hsave.
    destruct (save_conversation w (Locals.db_user a) (Locals.input_text a)
                (Locals.result a) s1) as [[e | []] s2]; simpl in Hsave.
    + destruct (is_EmailNotFoundException e || is_ValueError e);
        [ | destruct (is_BaseAppException e) ]; intros [= <- <-];
        right; rewrite Hsave; exact Hanswer.
    + intros [= <- <-]. rewrite Hsave. exact Hanswer.
Qed.

End ModelCalls.

Lemma InvokeChat_calls_the_model_once_witness :
  exists prompt,
    model_calls
      (InvokeChat Scenario.calm (Some "What did you build?") None
         "alice@example.com" Scenario.model_name Scenario.temperature
         Scenario.top_p Scenario.store).2
    = ChatCompletion prompt :: model_calls Scenario.store.
Proof.
  pose proof (InvokeChat_calls_the_model_once Scenario.calm (Some "What did you build?")
                None "alice@example.com" Scenario.model_name Scenario.temperature
                Scenario.top_p Scenario.store) as H.
  destruct (InvokeChat Scenario.calm (Some "What did you build?") None
              "alice@example.com" Scenario.model_name Scenario.temperature
              Scenario.top_p Scenario.store) as [[e | r] s'] eqn:Hrun.
  - vm_compute in Hrun. discriminate.
  - exact (H _ _ eq_refl).
Defined.

(** ** From one request to the next *)

Section NextHistory.

Import Text.

#[local] Existing Instance newer_first_total.
#[local] Existing Instance newer_first_transitive.

Variable w : World.

Lemma filter_none {A : Type} (P : A -> Prop) `{forall x, Decision (P x)} (l : list A) :
  Forall (fun x => ~ P x) l -> filter P l = [].
Proof.
  induction 1 as [ | x l Hx _ IH]; [ reflexivity | ].
  rewrite filter_cons_False by exact Hx. exact IH.
Qed.

Lemma filter_all {A : Type} (P : A -> Prop) `{forall x, Decision (P x)} (l : list A) :
  Forall P l -> filter P l = l.
Proof.
  induction 1 as [ | x l Hx _ IH]; [ reflexivity | ].
  rewrite filter_cons_True by exact Hx. rewrite IH. reflexivity.
Qed.

(** In a list sorted newest first the fresh rows come first. *)
Lemma fresh_first (l : list ChatMemory.t) :
  StronglySorted newer_first l ->
  l = filter (fresh w) l ++ filter (fun m => ~ fresh w m) l.
Proof.
  induction 1 as [ | x l Hsorted IH Hx]; [ reflexivity | ].
  destruct (decide (fresh w x)) as [Hfresh | Hold].
  - rewrite (filter_cons_True (fresh w)) by exact Hfresh.
    rewrite (filter_cons_False (fun m => ~ fresh w m)) by tauto.
    simpl. rewrite <- IH. reflexivity.
  - assert (Hall : Forall (fun m => ~ fresh w m) l).
    { eapply Forall_impl; [ exact Hx | ].
      intros m Hm. unfold fresh, newer_first in *. lia. }
    rewrite (filter_cons_False (fresh w)) by exact Hold.
    rewrite (filter_none (fresh w) l Hall).
    rewrite (filter_cons_True (fun m => ~ fresh w m)) by exact Hold.
    rewrite (filter_all _ l Hall). reflexivity.
Qed.

(** Among the newest turns of a user, the two that were inserted last
    come first when every other row is older. *)
Lemma inserted_turns_in_history
  (limit : nat) (rows : list ChatMemory.t) (u : User.t) (input : string)
  (result : ChatResponseModel) :
  2 <= limit ->
  Forall (fun m => (ChatMemory.created_at m < now w)%Z) rows ->
  truthy input = true ->
  long_enough result ->
  In input
    (history_of (chat_messages_of limit (User.id u)
                   (rows ++ inserted w (length rows) (new_turns u input result))))
  /\ In (assistant_text result)
       (history_of (chat_messages_of limit (User.id u)
                      (rows ++ inserted w (length rows) (new_turns u input result)))).
Proof.
  intros Hlimit Hold Hinput Hlong.
  set (news := inserted w (length rows) (new_turns u input result)).
  set (F := filter (is_chat_of (User.id u)) (rows ++ news)).
  set (L := merge_sort newer_first F).
  assert (Hnews : Forall (fun m => is_chat_of (User.id u) m /\ fresh w m) news).
  { subst news. simpl. repeat constructor; unfold fresh; simpl; lia. }
  assert (HF : filter (fresh w) F = news).
  { subst F. rewrite !filter_app.
    rewrite (filter_none (fresh w) (filter _ rows)).
    - simpl. rewrite (filter_all (is_chat_of (User.id u)) news).
      + apply filter_all. eapply Forall_impl; [ exact Hnews | ].
        intros m [_ Hm]. exact Hm.
      + eapply Forall_impl; [ exact Hnews | ].
        intros m [Hm _]. exact Hm.
    - apply Forall_forall. intros m Hm.
      apply list_elem_of_filter in Hm as [_ Hm].
      rewrite Forall_forall in Hold. specialize (Hold m Hm).
      unfold fresh. lia. }
  assert (Hperm : filter (fresh w) L ≡ₚ news).
  { rewrite <- HF. subst L. rewrite merge_sort_Permutation. reflexivity. }
  assert (Hsplit : L = filter (fresh w) L ++ filter (fun m => ~ fresh w m) L).
  { apply fresh_first. subst L. apply StronglySorted_merge_sort; apply _. }
  assert (Htake : forall m, m ∈ news -> m ∈ chat_messages_of limit (User.id u) (rows ++ news)).
  { intros m Hm. unfold chat_messages_of. fold F. fold L.
    rewrite Hsplit, take_app.
    apply elem_of_app. left.
    rewrite take_ge.
    - rewrite Hperm. exact Hm.
    - rewrite Hperm. subst news. simpl. exact Hlimit. }
  assert (Hhist : forall m, m ∈ news -> truthy (ChatMemory.message m) = true ->
                  In (ChatMemory.message m)
                     (history_of (chat_messages_of limit (User.id u) (rows ++ news)))).
  { intros m Hm Ht. unfold history_of. apply List.filter_In. split; [ | exact Ht ].
    apply List.in_map. apply list_elem_of_In. apply elem_of_reverse.
    apply Htake. exact Hm. }
  assert (Hin : Forall (fun m => m ∈ news) news).
  { apply Forall_forall. intros m Hm. exact Hm. }
  subst news. simpl in Hin.
  apply Forall_cons in Hin as [Hfirst Hin].
  apply Forall_cons in Hin as [Hsecond _].
  split.
  - exact (Hhist _ Hfirst Hinput).
  - exact (Hhist _ Hsecond (long_enough_truthy result Hlong)).
Qed.

Lemma preserves_run {A P : Type} (proj : State -> P) (m : M A) s r s' :
  preserves proj m -> m s = (r, s') -> proj s' = proj s.
Proof. intros Hm Hrun. specialize (Hm s). rewrite Hrun in Hm. exact Hm. Qed.

(** The user that the history step binds is the user of the table whose
    stored address is the lower-cased address of the request. *)
Lemma answer_db_user text audio email model temperature top_p s a s1 u :
  answer w text audio email model temperature top_p s = (ok a, s1) ->
  Locals.db_user a = Bound (Some u) ->
  List.find (fun u => String.eqb (User.email u) (lower email)) (users s) = Some u.
Proof.
  unfold answer. intros H Hbound.
  apply bind_ok_inv in H as (user_request & s2 & H1 & H).
  apply bind_ok_inv in H as ([resumes user_id] & s3 & H2 & H).
  apply bind_ok_inv in H as (transcribed & s4 & H3 & H).
  apply bind_ok_inv in H as (input & s5 & H4 & H).
  apply bind_ok_inv in H as ([db_user history] & s6 & H5 & H).
  apply bind_ok_inv in H as (result & s7 & _ & H).
  injection H as <- _. simpl in Hbound. subst db_user.
  assert (Hstore : store_of s5 = store_of s).
  { transitivity (store_of s4).
    { eapply preserves_run; [ | exact H4 ]. unfold combine_inputs. kept. }
    transitivity (store_of s3).
    { eapply preserves_run; [ | exact H3 ].
      destruct audio; [ apply preserves_store_process_audio | kept ]. }
    transitivity (store_of s2).
    { eapply preserves_run; [ | exact H2 ]. unfold GetResumeDetails. kept. }
    eapply preserves_run; [ | exact H1 ]. unfold UserRequestModel. kept. }
  assert (Husers : users s5 = users s).
  { unfold store_of in Hstore. congruence. }
  rewrite <- Husers.
  revert H5.
  unfold fetch_history, query_user, query_history, db_call, log, modify,
    attempt, get_state, ret, throw, bind.
  simpl.
  destruct (db_fault w (QueryUser (lower email) :: calls s5)); simpl;
    [ discriminate | ].
  destruct (List.find _ (users s5)) as [u0 | ]; simpl; [ | discriminate ].
  destruct (db_fault w _); simpl; intros [= <- _ _]; reflexivity.
Qed.

(** The call whose two turns a commit has stored. *)
Lemma InvokeChat_committed text audio email model temperature top_p s a s1 u :
  pending s = [] ->
  answer w text audio email model temperature top_p s = (ok a, s1) ->
  Locals.db_user a = Bound (Some u) ->
  db_fault w (Commit :: calls s1) = None ->
  exists s2,
    InvokeChat w text audio email model temperature top_p s = (ok (response_of a), s2)
    /\ users s2 = users s
    /\ chat_memory s2
       = chat_memory s
         ++ inserted w (length (chat_memory s))
              (new_turns u (Locals.input_text a) (Locals.result a)).
Proof.
  intros Hpending Hanswer Hbound Hfault.
  pose proof (preserves_store_answer w text audio email model temperature top_p s) as Hkept.
  rewrite Hanswer in Hkept. unfold store_of in Hkept. simpl in Hkept.
  injection Hkept as Hu Hm Hp.
  assert (Hguard : negb (text_present text) && negb (upload_present audio) = false).
  { destruct audio as [audio' | ]; [ apply andb_false_r | ].
    rewrite (answer_needs_input _ _ _ _ _ _ _ _ _ Hanswer). reflexivity. }
  unfold InvokeChat. rewrite Hguard.
  unfold catch, InvokeChat_try. rewrite (bind_ok _ _ _ _ _ Hanswer).
  rewrite Hbound.
  unfold save_conversation, catch, db_add, db_commit, db_rollback, db_call,
    log, modify, get_state, ret, throw, bind.
  simpl. rewrite Hfault. simpl.
  eexists. split; [ reflexivity | ].
  simpl. rewrite Hp, Hpending, Hm, Hu. split; reflexivity.
Qed.

(** X24.  What a request has saved, the next request of the same user
    reads.  When the chain has answered, the user was found and the commit
    went through, and every row of the table was older than the insert,
    the history step of a later request with the same address, in a world
    whose two queries go through, on the state that [InvokeChat] has left,
    finds the same user and yields a history that holds the input of the
    first request and the text stored for its reply. *)
Theorem saved_turns_reappear_in_history
  (later : World)
  (text : option string) (audio : option UploadFile.t) (email model : string)
  (temperature top_p : Q) (s : State) (a : Locals.t) (s1 : State) (u : User.t) :
  pending s = [] ->
  answer w text audio email model temperature top_p s = (ok a, s1) ->
  Locals.db_user a = Bound (Some u) ->
  db_fault w (Commit :: calls s1) = None ->
  Forall (fun m => (ChatMemory.created_at m < now w)%Z) (chat_memory s) ->
  db_fault later
    (QueryUser (lower email)
       :: calls (InvokeChat w text audio email model temperature top_p s).2) = None ->
  db_fault later
    (QueryHistory (User.id u) :: QueryUser (lower email)
       :: calls (InvokeChat w text audio email model temperature top_p s).2) = None ->
  exists history,
    (fetch_history later email
       (InvokeChat w text audio email model temperature top_p s).2).1
    = ok (Bound (Some u), history)
    /\ In (Locals.input_text a) history
    /\ In (assistant_text (Locals.result a)) history.
Proof.
  intros Hpending Hanswer Hbound Hfault Hold Hfirst Hsecond.
  destruct (InvokeChat_committed _ _ _ _ _ _ _ _ _ _ Hpending Hanswer Hbound Hfault)
    as (s2 & Hrun & Husers & Hrows).
  rewrite Hrun in *. simpl in Hfirst, Hsecond. simpl.
  pose proof (answer_db_user _ _ _ _ _ _ _ _ _ _ Hanswer Hbound) as Hfind.
  rewrite <- Husers in Hfind.
  destruct (answer_inv _ _ _ _ _ _ _ _ _ _ Hanswer) as [Hinput Hlong].
  exists (history_of (chat_messages_of 10 (User.id u) (chat_memory s2))).
  split.
  - unfold fetch_history, query_user, query_history, db_call, log, modify,
      attempt, get_state, ret, throw, bind.
    simpl. rewrite Hfirst. simpl. rewrite Hfind. simpl. rewrite Hsecond. reflexivity.
  - rewrite Hrows.
    apply inserted_turns_in_history; [ lia | exact Hold | exact Hinput | exact Hlong ].
Qed.

End NextHistory.

Lemma saved_turns_reappear_in_history_witness :
  exists history,
    (fetch_history Scenario.calm "alice@example.com"
       (InvokeChat Scenario.calm (Some "What did you build?") None
          "alice@example.com" Scenario.model_name Scenario.temperature
          Scenario.top_p Scenario.store).2).1
    = ok (Bound (Some Scenario.alice), history)
    /\ In "What did you build?" history
    /\ In Scenario.answer_text history.
Proof.
  eapply (saved_turns_reappear_in_history Scenario.calm Scenario.calm
            (Some "What did you build?") None "alice@example.com"
            Scenario.model_name Scenario.temperature Scenario.top_p Scenario.store
            {| Locals.user_id := User.id Scenario.alice;
               Locals.db_user := Bound (Some Scenario.alice);
               Locals.input_text := "What did you build?";
               Locals.result := {| explanation := Scenario.answer_text;
                                   code := Text.empty |} |}
            _ Scenario.alice).
  - reflexivity.
  - vm_compute. reflexivity.
  - reflexivity.
  - reflexivity.
  - repeat constructor.
  - reflexivity.
  - reflexivity.
Defined.
